(** * Mosaic: change detection, commits, keyed lists and template acquisition

    A shallow embedding of the templating core of Mosaic:
    - [Memory.changed] and the [Memory.commit*] helpers of [src/memory.ts];
    - [getTemplate] and [buildHTML] of the parser module.

    JavaScript values are a tagged variant, objects carry a reference
    number for their identity, and the DOM is a tree of nodes with
    identities.  Code that throws returns [Throw]; callbacks and console
    output are recorded in an effect trace. *)

From Stdlib Require Import ZArith String Ascii List Bool Lia.
From Stdlib Require Import Floats.SpecFloat.
From stdpp Require Import base option gmap strings pretty list.

Set Warnings "-register-all".

Local Open Scope string_scope.
Local Open Scope list_scope.

(** ** JavaScript values *)

Module Js.

(** Numbers are IEEE-754 binary64 values, as [spec_float] in canonical
    form ([valid_binary 53 1024]).  Objects (functions, arrays, component
    instances, templates, plain objects) carry [ref], their identity. *)
Inductive value : Type :=
| VUndefined
| VNull
| VBool (b : bool)
| VNumber (x : spec_float)
| VString (s : string)
| VFunction (ref : nat) (source : string)
| VArray (ref : nat) (elems : list value)
| VKeyedArray (ref : nat) (keys : list value)
| VMosaic (ref : nat) (tid iid : string) (injected : value)
| VTemplate (ref : nat) (values : list value)
| VObject (ref : nat).

(** The result of code that may throw. *)
Inductive result (A : Type) : Type :=
| Ok (a : A)
| Throw (what : string).
Arguments Ok {A} a.
Arguments Throw {A} what.

(** [!v] is [negb (truthy v)]: the falsy values are undefined, null, false,
    +0, -0, NaN and the empty string. *)
Definition truthy (v : value) : bool :=
  match v with
  | VUndefined | VNull => false
  | VBool b => b
  | VNumber (S754_zero _) | VNumber S754_nan => false
  | VNumber _ => true
  | VString s => negb (String.eqb s "")
  | _ => true
  end.

(** [a === b]: same type and same value; IEEE equality on numbers,
    identity on objects. *)
Definition strict_equal (a b : value) : bool :=
  match a, b with
  | VUndefined, VUndefined => true
  | VNull, VNull => true
  | VBool x, VBool y => Bool.eqb x y
  | VNumber x, VNumber y => SFeqb x y
  | VString x, VString y => String.eqb x y
  | VFunction r _, VFunction r' _ => Nat.eqb r r'
  | VArray r _, VArray r' _ => Nat.eqb r r'
  | VKeyedArray r _, VKeyedArray r' _ => Nat.eqb r r'
  | VMosaic r _ _ _, VMosaic r' _ _ _ => Nat.eqb r r'
  | VTemplate r _, VTemplate r' _ => Nat.eqb r r'
  | VObject r, VObject r' => Nat.eqb r r'
  | _, _ => false
  end.

(** Modelled from the spec: [isPrimitive] of the util module, which is not
    part of the sources.  The change detector's primitive values are
    "string/number/boolean/null/undefined". *)
Definition isPrimitive (v : value) : bool :=
  match v with
  | VUndefined | VNull | VBool _ | VNumber _ | VString _ => true
  | _ => false
  end.

(** [isKeyedArray] of the util module: the value is a keyed array. *)
Definition isKeyedArray (v : value) : bool :=
  match v with VKeyedArray _ _ => true | _ => false end.

Definition option_string_eqb (a b : option string) : bool :=
  match a, b with
  | Some x, Some y => String.eqb x y
  | None, None => true
  | _, _ => false
  end.

(** The numbers 5 and 6 as binary64 values. *)
Definition five : spec_float := S754_finite false 5629499534213120 (-50).
Definition six : spec_float := S754_finite false 6755399441055744 (-50).

(** Built-ins of the host: [Number.prototype.toString] and
    [JSON.stringify] (which answers [undefined] on some values). *)
Class Host : Type := {
  number_to_string : spec_float -> string;
  JSON_stringify : value -> option string
}.

(** ['' + v]: undefined and null elements of an array render as the empty
    string, a function renders as its source text, an object without a
    [toString] of its own as [[object Object]]. *)
Fixpoint to_string `{Host} (v : value) : string :=
  match v with
  | VUndefined => "undefined"
  | VNull => "null"
  | VBool true => "true"
  | VBool false => "false"
  | VNumber x => number_to_string x
  | VString s => s
  | VFunction _ source => source
  | VArray _ elems =>
      (fix join (l : list value) : string :=
         match l with
         | [] => ""
         | x :: rest =>
             let here := match x with
                         | VUndefined | VNull => ""
                         | _ => to_string x
                         end in
             match rest with
             | [] => here
             | _ :: _ => here +:+ "," +:+ join rest
             end
         end) elems
  | VKeyedArray _ _ | VMosaic _ _ _ _ | VTemplate _ _ | VObject _ =>
      "[object Object]"
  end.

(** ** State and exceptions

    A computation over a state [S] that returns or throws; the state is
    kept when it throws, as the mutations done before a JavaScript
    exception stay done. *)
Definition M (S A : Type) : Type := S -> result A * S.

Definition ret {S A} (a : A) : M S A := fun s => (Ok a, s).
Definition throw {S A} (what : string) : M S A := fun s => (Throw what, s).
Definition bind {S A B} (c : M S A) (k : A -> M S B) : M S B :=
  fun s => match c s with
           | (Ok a, s') => k a s'
           | (Throw what, s') => (Throw what, s')
           end.
Definition get {S} : M S S := fun s => (Ok s, s).
Definition modify {S} (f : S -> S) : M S unit := fun s => (Ok tt, f s).

(** [l.forEach(f)] *)
Fixpoint forEach {S A} (l : list A) (f : A -> M S unit) : M S unit :=
  match l with
  | [] => ret tt
  | x :: rest => bind (f x) (fun _ => forEach rest f)
  end.

End Js.

Notation "x <- c ;; k" := (Js.bind c (fun x => k))
  (at level 100, c at next level, right associativity, only parsing).
Notation "c ;;; k" := (Js.bind c (fun _ => k))
  (at level 100, right associativity, only parsing).

(** ** The DOM

    A document is a tree of nodes.  Every node has an identity [id], which
    stands for the JavaScript reference to it; identities are unique.  A
    node is an event target: it carries the listeners registered on it and
    the [eventHandlers] object that [commitEvent] hangs on it.  Only
    elements have attributes.  Attribute names are names the DOM accepts,
    and keys are plain text, for which the selector [[key='k']] tests the
    attribute [key] for equality with [k]. *)

Module Dom.
Import Js.

Inductive node_kind : Type :=
| ElementKind (tagName : string) (attributes : gmap string string)
| TextKind (data : string)
| CommentKind (data : string).

Record event_target : Type := mk_event_target {
  (** the expando property [eventHandlers]: attribute name to the
      reference of the bound function; [None] while it is undefined *)
  eventHandlers : option (gmap string nat);
  (** the event listener list: event type and callback reference *)
  listeners : list (string * nat)
}.

Inductive node : Type :=
| Node (id : nat) (kind : node_kind) (target : event_target)
       (childNodes : list node).

Definition node_id (n : node) : nat := let 'Node id _ _ _ := n in id.
Definition node_kind_of (n : node) : node_kind := let 'Node _ k _ _ := n in k.
Definition node_target (n : node) : event_target := let 'Node _ _ t _ := n in t.
Definition node_children (n : node) : list node := let 'Node _ _ _ c := n in c.

Definition nodeType (n : node) : nat :=
  match node_kind_of n with
  | ElementKind _ _ => 1
  | TextKind _ => 3
  | CommentKind _ => 8
  end.

(** The attributes of a node; a node that is not an element has none. *)
Definition attributes_of (n : node) : gmap string string :=
  match node_kind_of n with
  | ElementKind _ a => a
  | TextKind _ | CommentKind _ => ∅
  end.

(** The children of the document node, in tree order. *)
Definition document : Type := list node.

(** [n.setAttribute(name, value)] and [n.removeAttribute(name)]: a text or
    a comment node has no such method, and the call throws. *)
Definition setAttribute (name value : string) (n : node) : result node :=
  match n with
  | Node id (ElementKind tag a) t kids =>
      Ok (Node id (ElementKind tag (<[name := value]> a)) t kids)
  | _ => Throw "TypeError: setAttribute is not a function"
  end.

Definition removeAttribute (name : string) (n : node) : result node :=
  match n with
  | Node id (ElementKind tag a) t kids =>
      Ok (Node id (ElementKind tag (delete name a)) t kids)
  | _ => Throw "TypeError: removeAttribute is not a function"
  end.

Definition hasAttribute (name : string) (n : node) : bool :=
  bool_decide (is_Some (attributes_of n !! name)).

Definition getAttribute (name : string) (n : node) : option string :=
  attributes_of n !! name.

Definition with_target (f : event_target -> event_target) (n : node) : node :=
  let 'Node id k t kids := n in Node id k (f t) kids.

(** [n.addEventListener(type, callback)]: a listener already in the list
    is not added a second time. *)
Definition addEventListener (type : string) (callback : nat) (n : node) : node :=
  with_target (fun t =>
    {| eventHandlers := eventHandlers t;
       listeners := if bool_decide ((type, callback) ∈ listeners t)
                    then listeners t
                    else listeners t ++ [(type, callback)] |}) n.

(** [n.removeEventListener(type, callback)] *)
Definition removeEventListener (type : string) (callback : nat) (n : node) : node :=
  with_target (fun t =>
    {| eventHandlers := eventHandlers t;
       listeners := filter (fun l => l ≠ (type, callback)) (listeners t) |}) n.

(** [n.eventHandlers = h] *)
Definition set_eventHandlers (h : gmap string nat) (n : node) : node :=
  with_target (fun t =>
    {| eventHandlers := Some h; listeners := listeners t |}) n.

(** The callbacks registered on a node for one event type. *)
Definition listeners_for (type : string) (n : node) : list nat :=
  (filter (fun l => l.1 = type) (listeners (node_target n))).*2.

(** *** Walking the tree *)

(** The first answer of [f] along a list of nodes. *)
Fixpoint first_some {A} (f : node -> option A) (l : list node) : option A :=
  match l with
  | [] => None
  | n :: rest =>
      match f n with
      | Some a => Some a
      | None => first_some f rest
      end
  end.

Definition is_element (n : node) : bool :=
  match node_kind_of n with ElementKind _ _ => true | _ => false end.

(** The first element in tree order (the node itself, then its
    descendants) that satisfies [p]. *)
Fixpoint first_element (p : node -> bool) (n : node) : option nat :=
  let 'Node id _ _ kids := n in
  if is_element n && p n then Some id
  else first_some (first_element p) kids.

Definition has_key (key : string) (n : node) : bool :=
  bool_decide (attributes_of n !! "key" = Some key).

(** *** The selector [[key='${key}']]

    The key is put between the quotes as it is.  A key without a quote, a
    backslash, a line break or a NUL is read back as itself, and the
    selector tests the attribute [key] for equality with it.  When the
    key has a quote after such text and only letters follow the quote,
    as in [it's], the text after the quote and the closing [']] do not
    make an attribute selector, and the query throws a [SyntaxError].
    What the host makes of any other key (escapes, further selectors
    after the quote) is left to the host. *)

Definition plain_char (c : ascii) : bool :=
  negb (bool_decide (c ∈ ["'"; "\"; "010"; "012"; "013"; "000"]%char)).

Fixpoint plain_key (key : string) : bool :=
  match key with
  | EmptyString => true
  | String c rest => plain_char c && plain_key rest
  end.

Definition is_letter (c : ascii) : bool :=
  let n := nat_of_ascii c in
  (Nat.leb 65 n && Nat.leb n 90) || (Nat.leb 97 n && Nat.leb n 122).

Fixpoint only_letters (s : string) : bool :=
  match s with
  | EmptyString => true
  | String c rest => is_letter c && only_letters rest
  end.

(** Plain text, a quote, and nothing but letters after it. *)
Fixpoint broken_key (key : string) : bool :=
  match key with
  | EmptyString => false
  | String c rest =>
      if Ascii.eqb c "'" then only_letters rest
      else plain_char c && broken_key rest
  end.

(** What [document.querySelector] answers for the selector of a key that
    is neither plain nor broken in the way above. *)
Class Selectors : Type := {
  querySelector_other : string -> document -> result (option nat)
}.

(** [document.querySelector(`[key='${key}']`)] *)
Definition querySelector_key `{Selectors} (key : string) (d : document)
    : result (option nat) :=
  if plain_key key then Ok (first_some (first_element (has_key key)) d)
  else if broken_key key then Throw "SyntaxError: not a valid selector"
  else querySelector_other key d.

Definition is_not (id : nat) (n : node) : bool := negb (Nat.eqb (node_id n) id).

(** The node [id] is taken out of every child list below [n]. *)
Fixpoint remove_below (id : nat) (n : node) : node :=
  let 'Node i k t kids := n in
  Node i k t (List.filter (is_not id) (List.map (remove_below id) kids)).

(** [node.remove()] for the node [id]; a node that is not in the document
    has no parent, and nothing happens. *)
Definition remove (id : nat) (d : document) : document :=
  List.filter (is_not id) (List.map (remove_below id) d).

(** The identities of the previous and of the next sibling of [id] when
    [id] is in the child list [l]. *)
Fixpoint siblings_in (id : nat) (previous : option nat) (l : list node)
    : option (option nat * option nat) :=
  match l with
  | [] => None
  | n :: rest =>
      if Nat.eqb (node_id n) id
      then Some (previous, node_id <$> head rest)
      else siblings_in id (Some (node_id n)) rest
  end.

Fixpoint siblings_below (id : nat) (n : node)
    : option (option nat * option nat) :=
  let 'Node _ _ _ kids := n in
  match siblings_in id None kids with
  | Some r => Some r
  | None => first_some (siblings_below id) kids
  end.

Definition siblings_of (id : nat) (d : document)
    : option (option nat * option nat) :=
  match siblings_in id None d with
  | Some r => Some r
  | None => first_some (siblings_below id) d
  end.

(** [node.nextSibling] and [node.previousSibling]; [None] is [null], also
    for a node outside the document. *)
Definition nextSibling (id : nat) (d : document) : option nat :=
  match siblings_of id d with
  | Some (_, next) => next
  | None => None
  end.

Definition previousSibling (id : nat) (d : document) : option nat :=
  match siblings_of id d with
  | Some (previous, _) => previous
  | None => None
  end.

(** The nodes of the document, in tree order. *)
Fixpoint nodes_below (n : node) : list node :=
  let 'Node _ _ _ kids := n in n :: List.flat_map nodes_below kids.

Definition nodes (d : document) : list node := List.flat_map nodes_below d.

(** Induction on a tree, with the property known of all the children. *)
Fixpoint node_nested_ind (P : node -> Prop)
    (step : forall i k t kids, Forall P kids -> P (Node i k t kids))
    (n : node) : P n :=
  match n with
  | Node i k t kids =>
      step i k t kids
        ((fix all (l : list node) : Forall P l :=
            match l with
            | [] => @List.Forall_nil node P
            | x :: rest =>
                @List.Forall_cons node P x rest
                  (node_nested_ind P step x) (all rest)
            end) kids)
  end.

(** No node of [l] has the identity [id] once [id] was removed. *)
Definition gone_from (id : nat) (l : list node) : Prop :=
  id ∉ node_id <$> List.flat_map nodes_below
         (List.filter (is_not id) (List.map (remove_below id) l)).

End Dom.

(** ** [src/memory.ts] *)

Module Memory.
Import Js Dom.

(** What [changed] and the commits do besides their result: console
    output, and the calls to helpers and hooks that live outside this
    module. *)
Inductive effect : Type :=
| ConsoleLog (label text : string)
| CleanUpMosaic (ref : nat)
| TraverseValues (newRef oldRef : nat)
| AssignIid (ref : nat) (iid : string)
| Created (ref : nat).

(** The functions [memory.ts] imports from the util module, which is not
    part of the sources. *)
Class Util : Type := {
  isBooleanAttribute : string -> bool;
  (** [insertAfter(newNode, referenceNode)]; the reference may be null *)
  insertAfter : node -> option nat -> document -> result document
}.

Record attribute_option : Type := { attr_name : string; attr_value : value }.

(** [MemoryOptions] and the fields of the class [Memory] *)
Record Memory : Type := {
  type : string;
  steps : list nat;
  attribute : option attribute_option;
  event : option string
}.

(** [v.keys], for the console output of [changed]: the keys of a keyed
    array, the built-in method of an array, undefined otherwise. *)
Definition keys_property (v : value) : value :=
  match v with
  | VKeyedArray _ ks => VArray 0 ks
  | VArray _ _ => VFunction 0 "function keys() { [native code] }"
  | _ => VUndefined
  end.

Section Changed.
Context `{Host}.

(** [Memory.changed], lines 40-107.  The first component is the returned
    boolean.  Every value here that is no primitive, function, array or
    keyed array is an object, so the last [return false] is not reached;
    nor is the test [!newValue] of line 66, on an object. *)
Definition changed (oldValue newValue : value) (initiallyRendered : bool)
    : bool * list effect :=
  if negb (truthy oldValue) || Bool.eqb initiallyRendered true then (true, [])
  else if isPrimitive newValue then
    (negb (strict_equal oldValue newValue), [])
  else
    match newValue with
    | VFunction _ _ =>
        (String.eqb (to_string oldValue) (to_string newValue), [])
    | VArray _ _ => (true, [])
    | VKeyedArray _ _ =>
        (true, [ConsoleLog "Old: " (to_string (keys_property oldValue));
                ConsoleLog "New: " (to_string (keys_property newValue))])
    | _ =>
        (* typeof newValue === 'object' *)
        match oldValue with
        | VMosaic oldRef oldTid oldIid oldInjected =>
            match newValue with
            | VMosaic newRef newTid _ newInjected =>
                if negb (String.eqb newTid oldTid) then
                  (true, [CleanUpMosaic oldRef; TraverseValues newRef oldRef])
                else if negb (option_string_eqb (JSON_stringify oldInjected)
                                                (JSON_stringify newInjected))
                then (true, [AssignIid newRef oldIid; CleanUpMosaic oldRef])
                else (false, [AssignIid newRef oldIid])
            | _ => (true, [CleanUpMosaic oldRef])
            end
        | _ =>
            match newValue with
            | VTemplate _ newValues =>
                match oldValue with
                | VTemplate _ oldValues =>
                    (negb (String.eqb (to_string (VArray 0 oldValues))
                                      (to_string (VArray 0 newValues))), [])
                | _ => (true, [])
                end
            | _ =>
                (negb (option_string_eqb (JSON_stringify oldValue)
                                         (JSON_stringify newValue)), [])
            end
        end
    end.

(** The boolean [changed] returns. *)
Definition isDirty (oldValue newValue : value) (force : bool) : bool :=
  (changed oldValue newValue force).1.

End Changed.

(** *** Keyed arrays *)

(** A rendered item of a keyed array: a component or a template, with its
    root [element] and, when it has one, its [created] hook.  The items a
    commit adds are new: their elements are not in the document. *)
Record item : Type := {
  item_ref : nat;
  element : node;
  created : bool
}.

(** [KeyedArray] *)
Record KeyedArray : Type := {
  items : list value;
  keys : list string;
  mapped : list item
}.

Record addition : Type := { key : string; index : nat }.

Record differences : Type := {
  deletions : list string;
  additions : list addition
}.

(** Modelled from the spec: [getArrayDifferences] of the util module, which
    is not part of the sources.  "deletions = old keys absent from new
    keys and additions = {key, index} pairs present in new keys but absent
    from old keys", the index being the position in the new keys. *)
Definition getArrayDifferences (oldKeys newKeys : list string) : differences :=
  {| deletions := filter (fun k => k ∉ newKeys) oldKeys;
     additions := filter (fun a => key a ∉ oldKeys)
                    (imap (fun i k => {| key := k; index := i |}) newKeys) |}.

(** The state of a keyed commit: the document, and the hooks called. *)
Record commit_state : Type := {
  doc : document;
  trace : list effect
}.

Definition on_doc (f : document -> document) : M commit_state unit :=
  modify (fun s => {| doc := f (doc s); trace := trace s |}).

Definition emit (e : effect) : M commit_state unit :=
  modify (fun s => {| doc := doc s; trace := trace s ++ [e] |}).

Definition lift {A} (r : result A) : M commit_state A :=
  match r with
  | Ok a => ret a
  | Throw what => throw what
  end.

(** The loop [for(let i = 0; i < index; i++) siblings = siblings === null ?
    null : siblings.nextSibling], lines 254-256. *)
Fixpoint walk_siblings (index : nat) (siblings : option nat) (d : document)
    : option nat :=
  match index with
  | 0 => siblings
  | S i =>
      walk_siblings i
        (match siblings with
         | None => None
         | Some s => nextSibling s d
         end) d
  end.

Section Commit.
Context `{Host} `{Util} `{Selectors}.

(** [Memory.commitAttribute], lines 275-285; the result is the addressed
    node after the commit. *)
Definition commitAttribute (this : Memory) (child : node) (newValue : value)
    : result node :=
  match attribute this with
  | None => Ok child
  | Some a =>
      let name := attr_name a in
      if isBooleanAttribute name then
        if strict_equal newValue (VBool true)
        then setAttribute name "true" child
        else removeAttribute name child
      else setAttribute name (to_string newValue) child
  end.

(** [name.substring(2)] *)
Definition substring_from (n : nat) (s : string) : string :=
  String.substring n (String.length s - n) s.

(** The state [commitEvent] works on: the addressed node, and the next
    free object reference. *)
Record event_state : Type := {
  child_node : node;
  next_ref : nat
}.

Definition on_child (f : node -> node) : M event_state unit :=
  modify (fun s => {| child_node := f (child_node s); next_ref := next_ref s |}).

(** [value.bind(component)]: a new function object. *)
Definition bind_function (value : value) (component : nat) : M event_state nat :=
  match value with
  | VFunction _ _ =>
      fun s => (Ok (next_ref s),
                {| child_node := child_node s; next_ref := S (next_ref s) |})
  | _ => throw "TypeError: value.bind is not a function"
  end.

(** [Memory.commitEvent], lines 289-300 *)
Definition commitEvent (this : Memory) (component : nat) (value : value)
    : M event_state unit :=
  let name := match event this with Some e => e | None => "" end in
  s <- get ;;
  let eventHandlers :=
    match eventHandlers (node_target (child_node s)) with
    | Some h => h
    | None => ∅
    end in
  (match eventHandlers !! name with
   | Some old => on_child (removeEventListener (substring_from 2 name) old)
   | None => ret tt
   end) ;;;
  bound <- bind_function value component ;;
  let eventHandlers := <[name := bound]> eventHandlers in
  on_child (set_eventHandlers eventHandlers) ;;;
  on_child (addEventListener (substring_from 2 name) bound) ;;;
  s <- get ;;
  match removeAttribute name (child_node s) with
  | Ok n => on_child (fun _ => n)
  | Throw what => throw what
  end.

(** The body of [deletions.forEach], lines 238-241. *)
Definition delete_one (key : string) : M commit_state unit :=
  s <- get ;;
  domNode <- lift (querySelector_key key (doc s)) ;;
  match domNode with
  | Some domNode => on_doc (remove domNode)
  | None => ret tt
  end.

(** The body of [additions.forEach], lines 247-270. *)
Definition insert_one (child : nat) (oldMapped newMapped : list item)
    (object : addition) : M commit_state unit :=
  let key := key object in
  let index := index object in
  match newMapped !! index with
  | None => throw "TypeError: newMappedItem is undefined"
  | Some newMappedItem =>
      keyed <- lift (setAttribute "key" key (element newMappedItem)) ;;
      s <- get ;;
      let siblings := walk_siblings index (Some child) (doc s) in
      (if Nat.leb (length oldMapped) index then
         (* append *)
         match siblings with
         | Some sb =>
             d <- lift (insertAfter keyed (previousSibling sb (doc s)) (doc s)) ;;
             on_doc (fun _ => d)
         | None => ret tt
         end
       else
         (* replace *)
         match siblings with
         | Some sb =>
             d <- lift (insertAfter keyed (previousSibling sb (doc s)) (doc s)) ;;
             on_doc (fun _ => d)
         | None => ret tt
         end) ;;;
      if created newMappedItem
      then emit (Created (item_ref newMappedItem))
      else ret tt
  end.

(** [Memory.commitKeyedArray] when [initial] is not true, lines 232-271:
    the deletions, then the additions.  [child] is the identity of the
    node the memory addresses. *)
Definition commitKeyedArray_incremental (child : nat)
    (oldValue value : KeyedArray) : M commit_state unit :=
  let oldMapped := mapped oldValue in
  let newMapped := mapped value in
  let differences := getArrayDifferences (keys oldValue) (keys value) in
  forEach (deletions differences) delete_one ;;;
  forEach (additions differences) (insert_one child oldMapped newMapped).

End Commit.

(** *** Runs and readings of the state, for the statements below *)

(** The attribute name an event memory works under: [this.event || ""]. *)
Definition event_name (this : Memory) : string :=
  match event this with Some e => e | None => "" end.

(** One commit after the other on the same node, each for the next value;
    a commit that throws leaves the node as it was when it threw. *)
Fixpoint commitEvents (this : Memory) (component : nat) (values : list value)
    (s : event_state) : event_state :=
  match values with
  | [] => s
  | v :: rest => commitEvents this component rest (commitEvent this component v s).2
  end.

(** The handler stored for [name] in the [eventHandlers] of a node. *)
Definition stored_handler (name : string) (n : node) : option nat :=
  match eventHandlers (node_target n) with
  | Some h => h !! name
  | None => None
  end.

(** The first element of the document, in tree order, whose [key]
    attribute is [k]. *)
Definition keyed (k : string) (n : node) : bool := is_element n && has_key k n.

Definition first_keyed (k : string) (d : document) : option node :=
  head (List.filter (keyed k) (nodes d)).

(** The document after the deletion of the key [k]. *)
Definition delete_key (d : document) (k : string) : document :=
  match first_keyed k d with
  | Some n => remove (node_id n) d
  | None => d
  end.

(** The listeners a node carries for the event of [name] are at most the
    handler stored under [name]. *)
Definition at_most_stored (name : string) (n : node) : Prop :=
  listeners_for (substring_from 2 name) n = []
  \/ exists h : nat,
       listeners_for (substring_from 2 name) n = [h]
       /\ stored_handler name n = Some h.

End Memory.

(** ** The parser module: [buildHTML] and [getTemplate] *)

Module Parser.
Import Js.

(** What [lastAttributeNameRegex.exec(str)] answers on a match: where the
    match starts, and its three groups. *)
Record regex_match : Type := {
  match_index : nat;
  group1 : string;
  group2 : string;
  group3 : string
}.

(** A slot descriptor as [memorize] builds it. *)
Record memory_config : Type := {
  config_type : string;
  config_steps : list nat;
  isComponentType : bool;
  isEvent : bool;
  config_attribute : option string
}.

(** What the parser takes from the util module, which is not part of the
    sources: the marker, fixed when the module is loaded, and the regular
    expression that looks for an attribute left open at the end of a
    segment (a test on the text of the segment alone).  [memorize] parses
    the markup with the host's parser and walks the tree; it is taken as
    a function of the markup. *)
Class Markup : Type := {
  nodeMarker : string;
  lastAttributeNameRegex_exec : string -> option regex_match;
  memorize : string -> list memory_config
}.

(** The object a view returns. *)
Record ViewFunction : Type := {
  strings : list string;
  values : list value
}.

(** A component as [getTemplate] reads it: its [tid], and its view, given
    by what the view returns for this component. *)
Record MosaicComponent : Type := {
  tid : string;
  view : option ViewFunction
}.

(** An element as [getTemplate] reads and writes it. *)
Record HTMLTemplateElement : Type := {
  ref : nat;
  id : string;
  innerHTML : string;
  memories : option (list memory_config)
}.

Inductive call : Type :=
| ViewCalled (tid : string)
| BuildHTMLCalled (strings : list string)
| MemorizeCalled (template : nat).

(** The state of the page: the elements in the document, in tree order,
    the next free object reference, and the calls made so far. *)
Record world : Type := {
  document : list HTMLTemplateElement;
  next_ref : nat;
  calls : list call
}.

(** [document.getElementById(id)] *)
Definition getElementById (elementId : string) (d : list HTMLTemplateElement)
    : option HTMLTemplateElement :=
  if String.eqb elementId "" then None
  else List.find (fun e => String.eqb (id e) elementId) d.

(** [document.createElement('template')]: a new, empty element outside
    the document. *)
Definition createElement_template : M world HTMLTemplateElement :=
  fun w =>
    (Ok {| ref := next_ref w; id := ""; innerHTML := ""; memories := None |},
     {| document := document w; next_ref := S (next_ref w); calls := calls w |}).

Definition log_call (c : call) : M world unit :=
  modify (fun w =>
    {| document := document w; next_ref := next_ref w; calls := calls w ++ [c] |}).

Section Build.
Context `{Markup}.

(** One turn of the loop of [buildHTML], lines 99-106: the segment with
    the marker after it. *)
Definition with_marker (str : string) : string :=
  match lastAttributeNameRegex_exec str with
  | None => str +:+ nodeMarker
  | Some attributeMatch =>
      String.substring 0 (match_index attributeMatch) str
      +:+ group1 attributeMatch +:+ group2 attributeMatch
      +:+ group3 attributeMatch +:+ nodeMarker
  end.

(** The loop of [buildHTML] from the segment at hand, with the markup
    built so far; the last segment is appended as it is.  Of an empty
    array, [strings[-1]] is undefined. *)
Fixpoint buildHTML_from (html : string) (strings : list string) : string :=
  match strings with
  | [] => html +:+ "undefined"
  | [final] => html +:+ final
  | str :: rest => buildHTML_from (html +:+ with_marker str) rest
  end.

(** [buildHTML], lines 94-110 *)
Definition buildHTML (strings : list string) : string :=
  buildHTML_from "" strings.

(** [getTemplate], lines 6-18 *)
Definition getTemplate (component : MosaicComponent) : M world HTMLTemplateElement :=
  w <- get ;;
  match getElementById (tid component) (document w) with
  | Some found => ret found
  | None =>
      match view component with
      | None => createElement_template
      | Some v =>
          log_call (ViewCalled (tid component)) ;;;
          let strings := strings v in
          template <- createElement_template ;;
          log_call (BuildHTMLCalled strings) ;;;
          let html := buildHTML strings in
          log_call (MemorizeCalled (ref template)) ;;;
          ret {| ref := ref template;
                 id := tid component;
                 innerHTML := html;
                 memories := Some (memorize html) |}
      end
  end.

End Build.

End Parser.

(** ** Hosts and inputs for the closed examples *)

Module Samples.
Import Js Dom.

(** The integer a binary64 value stands for, when it is one. *)
Definition integer_of (x : spec_float) : option Z :=
  match x with
  | S754_zero _ => Some 0%Z
  | S754_finite s m e =>
      let n := (if Z.leb 0 e then Z.pos m * 2 ^ e
                else Z.pos m / 2 ^ (- e))%Z in
      if (Z.leb 0 e || Z.eqb (Z.pos m mod 2 ^ (- e)) 0)%Z
      then Some (if s then (- n)%Z else n)
      else None
  | _ => None
  end.

(** A host for the closed examples: it renders integers, NaN and the
    infinities as JavaScript does, and [JSON.stringify] of null, booleans
    and integers; the examples stay within these values. *)
Definition sample_host : Host :=
  {| number_to_string := fun x =>
       match x with
       | S754_nan => "NaN"
       | S754_infinity false => "Infinity"
       | S754_infinity true => "-Infinity"
       | _ => match integer_of x with
              | Some n => pretty n
              | None => "NaN"
              end
       end;
     JSON_stringify := fun v =>
       match v with
       | VNull => Some "null"
       | VBool true => Some "true"
       | VBool false => Some "false"
       | VNumber x => match integer_of x with
                      | Some n => Some (pretty n)
                      | None => None
                      end
       | _ => None
       end |}.

(** The node [reference] with [newNode] put after it in its child list. *)
Fixpoint put_after (newNode : node) (reference : nat) (l : list node) : list node :=
  match l with
  | [] => []
  | n :: rest =>
      if Nat.eqb (node_id n) reference
      then n :: newNode :: rest
      else n :: put_after newNode reference rest
  end.

Fixpoint put_after_below (newNode : node) (reference : nat) (n : node) : node :=
  let 'Node i k t kids := n in
  Node i k t (put_after newNode reference
                (List.map (put_after_below newNode reference) kids)).

(** The util functions for the closed examples: the boolean attributes of
    HTML, and [insertAfter] as
    [referenceNode.parentNode.insertBefore(newNode, referenceNode.nextSibling)],
    which throws on a null reference and on a reference without a parent. *)
Definition sample_util : Memory.Util :=
  {| Memory.isBooleanAttribute := fun name =>
       bool_decide (name ∈ ["checked"; "disabled"; "hidden"; "multiple";
                            "readonly"; "required"; "selected"]);
     Memory.insertAfter := fun newNode reference d =>
       match reference with
       | None => Throw "TypeError: referenceNode is null"
       | Some r =>
           if bool_decide (r ∈ node_id <$> nodes d)
           then Ok (put_after newNode r
                      (List.map (put_after_below newNode r) d))
           else Throw "TypeError: parentNode is null"
       end |}.

(** A host for the closed examples in which every selector that is not
    read above is a syntax error; the examples use plain keys and the
    key [it's]. *)
Definition sample_selectors : Selectors :=
  {| querySelector_other := fun _ _ => Throw "SyntaxError: not a valid selector" |}.

(** A marker protocol for the closed examples; their segments end in node
    position, where the expression finds no attribute. *)
Definition sample_markup : Parser.Markup :=
  {| Parser.nodeMarker := "<!--{{m-0}}-->";
     Parser.lastAttributeNameRegex_exec := fun _ => None;
     Parser.memorize := fun _ => [] |}.

Definition no_target : event_target :=
  {| eventHandlers := None; listeners := [] |}.

(** [<tag key=k>] with the identity [id] and no children *)
Definition keyed_element (id : nat) (tag k : string) : node :=
  Node id (ElementKind tag {[ "key" := k ]}) no_target [].

(** [<tag>] with the identity [id] and the children [kids] *)
Definition plain_element (id : nat) (tag : string) (kids : list node) : node :=
  Node id (ElementKind tag ∅) no_target kids.

(** An item of a keyed array around the element [n]. *)
Definition item_of (n : node) (hook : bool) : Memory.item :=
  {| Memory.item_ref := 100 + node_id n; Memory.element := n;
     Memory.created := hook |}.

(** [<body><ul><li key=x></ul><ul><li key=x><li key=y></ul></body>]: two
    lists, each with an item under the key [x]. *)
Definition two_lists : document :=
  [plain_element 1 "body"
     [plain_element 2 "ul" [keyed_element 3 "li" "x"];
      plain_element 4 "ul" [keyed_element 5 "li" "x"; keyed_element 6 "li" "y"]]].

(** The second list of [two_lists] before and after the item [x] is
    dropped from it. *)
Definition second_list_old : Memory.KeyedArray :=
  {| Memory.items := []; Memory.keys := ["x"; "y"];
     Memory.mapped := [item_of (keyed_element 5 "li" "x") false;
                       item_of (keyed_element 6 "li" "y") false] |}.


(** A button with the placeholder attribute [onclick], its event memory,
    and three commits of which the second has no function. *)
Definition onclick_memory : Memory.Memory :=
  {| Memory.type := "event"; Memory.steps := [0; 0]; Memory.attribute := None;
     Memory.event := Some "onclick" |}.

Definition fresh_button : Memory.event_state :=
  {| Memory.child_node :=
       Node 5 (ElementKind "button" {[ "onclick" := "<!--m-->" ]}) no_target [];
     Memory.next_ref := 10 |}.

Definition three_commits : Memory.event_state :=
  Memory.commitEvents onclick_memory 0
    [VFunction 1 "() => 1"; VUndefined; VFunction 2 "() => 2"] fresh_button.




(** [<ul><li key=a></ul>]: a list of one item that ends its parent. *)
Definition one_item_list : document :=
  [plain_element 1 "ul" [keyed_element 2 "li" "a"]].

(** The same list with a text node after the item. *)
Definition one_item_list_then_text : document :=
  [plain_element 1 "ul" [keyed_element 2 "li" "a"; Node 9 (TextKind " ") no_target []]].

Definition list_a : Memory.KeyedArray :=
  {| Memory.items := []; Memory.keys := ["a"];
     Memory.mapped := [item_of (keyed_element 2 "li" "a") false] |}.

(** [list_a] with a new item [b] at index 1, the length of [list_a]. *)
Definition list_a_b : Memory.KeyedArray :=
  {| Memory.items := []; Memory.keys := ["a"; "b"];
     Memory.mapped := [item_of (keyed_element 2 "li" "a") false;
                       item_of (plain_element 3 "li" []) true] |}.

End Samples.

(** ** Readings of values, for the statements on [changed] *)

Module ValueKinds.
Import Js.

(** The values [changed] treats in its last branch: objects that are no
    function, no array and no keyed array. *)
Definition is_plain_object (v : value) : bool :=
  match v with
  | VMosaic _ _ _ _ | VTemplate _ _ | VObject _ => true
  | _ => false
  end.

(** The values that ['' + v] renders as [[object Object]]. *)
Definition renders_as_object (v : value) : bool :=
  match v with
  | VKeyedArray _ _ | VMosaic _ _ _ _ | VTemplate _ _ | VObject _ => true
  | _ => false
  end.

(** The falsy values. *)
Definition is_falsy (v : value) : Prop :=
  v = VUndefined \/ v = VNull \/ v = VBool false
  \/ (exists s : bool, v = VNumber (S754_zero s))
  \/ v = VNumber S754_nan \/ v = VString "".

End ValueKinds.

(** ** Readings of the tree, for the statements on the keyed commit *)

Module TreeReadings.
Import Dom.

(** The identities of the nodes of a child list and below, in tree order. *)
Definition ids_of (l : list node) : list nat :=
  node_id <$> List.flat_map nodes_below l.

(** The loop of [Memory.commit], lines 119-122, from the steps left to
    walk and the node reached; [child.childNodes[nextStep]] is undefined
    past the last child, and reading [childNodes] of undefined throws. *)
Fixpoint walk_steps (steps : list nat) (child : option node)
    : Js.result (option node) :=
  match steps with
  | [] => Js.Ok child
  | nextStep :: rest =>
      match child with
      | None => Js.Throw "TypeError: child is undefined"
      | Some n => walk_steps rest (node_children n !! nextStep)
      end
  end.

(** The node [Memory.commit] addresses, lines 117-122: the walk starts at
    the third step. *)
Definition addressed_child (element : node) (steps : list nat)
    : Js.result (option node) :=
  walk_steps (drop 2 steps) (Some element).

End TreeReadings.

(** ** Slot discovery: [parseAttributes] and [parseNode] of the parser *)

Module Discovery.
Import Js Parser.

(** [s.split(sep)] for a separator of one character; the empty string
    splits into one empty part. *)
Fixpoint split (sep : ascii) (s : string) : list string :=
  match s with
  | EmptyString => [""]
  | String c rest =>
      if Ascii.eqb c sep then "" :: split sep rest
      else match split sep rest with
           | part :: parts => String c part :: parts
           | [] => [String c ""]
           end
  end.

(** [s.replace(pattern, replacement)] for a pattern that is a string: the
    first occurrence is replaced. *)
Fixpoint replace_first (pattern replacement s : string) : string :=
  if String.prefix pattern s
  then replacement +:+ Memory.substring_from (String.length pattern) s
  else match s with
       | EmptyString => ""
       | String c rest => String c (replace_first pattern replacement rest)
       end.

(** An element as [parseAttributes] reads it: its node name, and its
    attributes in their order, [None] for a node without any. *)
Record element_view : Type := {
  nodeName : string;
  attributes : option (list (string * string))
}.

(** What discovery takes from the host: whether the expression
    [[a-z|A-Z| ]*${nodeMarker}[a-z|A-Z| ]*] finds a match in an attribute
    value, and whether [customElements] has a definition for a node name
    (taken in lower case). *)
Class Registry : Type := {
  marker_expression_matches : string -> bool;
  customElements_defined : string -> bool
}.

Section Parse.
Context `{Markup} `{Registry}.

(** The memory [parseAttributes] makes for a dynamic part of the
    attribute [name]. *)
Definition attribute_memory (name : string) (steps : list nat) (defined : bool)
    : memory_config :=
  {| config_type := "attribute";
     config_steps := steps;
     isComponentType := defined;
     isEvent := String.prefix "on" name;
     config_attribute := Some name |}.

(** The inner loop of [parseAttributes], lines 143-157: one memory for
    each part that is the marker. *)
Fixpoint push_dynamic (name : string) (steps : list nat) (defined : bool)
    (ret : list memory_config) (parts : list string) : list memory_config :=
  match parts with
  | [] => ret
  | item :: rest =>
      let isDynamic := String.eqb item nodeMarker in
      push_dynamic name steps defined
        (if isDynamic then ret ++ [attribute_memory name steps defined] else ret)
        rest
  end.

(** The parts of an attribute value, lines 141-142: split on [;] for
    [style] and on the space otherwise, the empty parts dropped. *)
Definition value_parts (name value : string) : list string :=
  List.filter (fun str => Nat.ltb 0 (String.length str))
    (if String.eqb name "style" then split ";" value else split " " value).

(** The outer loop of [parseAttributes], lines 135-158. *)
Fixpoint parseAttributes_from (steps : list nat) (defined : bool)
    (ret : list memory_config) (attrs : list (string * string))
    : list memory_config :=
  match attrs with
  | [] => ret
  | (name, value) :: rest =>
      if negb (marker_expression_matches value)
      then parseAttributes_from steps defined ret rest
      else parseAttributes_from steps defined
             (push_dynamic name steps defined ret (value_parts name value))
             rest
  end.

(** [parseAttributes], lines 129-160 *)
Definition parseAttributes (node : element_view) (steps : list nat)
    : list memory_config :=
  match attributes node with
  | None => []
  | Some attrs =>
      let defined := customElements_defined (nodeName node) in
      parseAttributes_from steps defined [] attrs
  end.

(** The text [parseNode] compares a comment with, line 162. *)
Definition marker_check : string :=
  replace_first "-->" "" (replace_first "<!--" "" nodeMarker).

(** [parseNode], lines 161-175, on a node given by its text, its node name
    and the node name of its parent element when it has one.  The memory
    has no [isEvent] and no [attribute]. *)
Definition parseNode (textContent nodeName : string) (parentElement : option string)
    (steps : list nat) : list memory_config :=
  if negb (String.eqb textContent marker_check) then []
  else
    let defined := customElements_defined nodeName in
    let defined2 := match parentElement with
                    | Some parent => customElements_defined parent
                    | None => false
                    end in
    [{| config_type := "node";
        config_steps := steps;
        isComponentType := defined || defined2;
        isEvent := false;
        config_attribute := None |}].

(** A node as the callback of [memorize] sees it. *)
Inductive visited : Type :=
| VisitedElement (e : element_view)
| VisitedComment (textContent nodeName : string) (parentElement : option string)
| VisitedOther (nodeType : nat).

(** The callback of [memorize], lines 117-124: what one visit adds. *)
Definition memorize_visit (node : visited) (steps : list nat)
    : list memory_config :=
  match node with
  | VisitedElement e => parseAttributes e steps
  | VisitedComment text name parent => parseNode text name parent steps
  | VisitedOther _ => []
  end.

(** [memorize], lines 114-126, over the visits [traverse] makes, each a
    node with its steps, in the order of the traversal ([traverse] is in
    the util module, not part of the sources). *)
Fixpoint memorize_over (ret : list memory_config)
    (visits : list (visited * list nat)) : list memory_config :=
  match visits with
  | [] => ret
  | (node, steps) :: rest => memorize_over (ret ++ memorize_visit node steps) rest
  end.

End Parse.

(** *** Readings, for the statements below *)

(** The character [c] does not occur in [s]. *)
Fixpoint without (c : ascii) (s : string) : bool :=
  match s with
  | EmptyString => true
  | String x rest => negb (Ascii.eqb x c) && without c rest
  end.

(** The separator [value_parts] splits the value of [name] on. *)
Definition separator (name : string) : ascii :=
  if String.eqb name "style" then ";"%char else " "%char.

End Discovery.

(** ** [_repaint] of the parser *)

Module Repaint.
Import Js Parser.

Section Deps.
(** The state of the page, and a reference to a node of it. *)
Variable page : Type.
Variable pointer : Type.
(** [changed] and [step] of the util module and [commit] of the memory
    class, none of them part of the sources: any computation on the
    page. *)
Variable changed : value -> value -> bool -> M page bool.
Variable step : pointer -> list nat -> M page pointer.
Variable commit : memory_config -> pointer -> pointer -> value -> value -> M page unit.

(** [values[i]]; undefined past the end of the array. *)
Definition at_index (values : list value) (i : nat) : value :=
  match values !! i with
  | Some v => v
  | None => VUndefined
  end.

(** The body of the loop of [_repaint] for the memory at index [i]. *)
Definition repaint_one (element : pointer) (isOTT : bool)
    (oldValues newValues : list value) (i : nat) (mem : memory_config)
    : M page unit :=
  pointer <- (if Bool.eqb isOTT true then ret element
              else step element (config_steps mem)) ;;
  let oldv := at_index oldValues i in
  let newv := at_index newValues i in
  let alwaysUpdateFunction := String.eqb (config_type mem) "node" in
  dirty <- changed oldv newv alwaysUpdateFunction ;;
  if dirty then commit mem element pointer oldv newv else ret tt.

(** The loop of [_repaint] from index [i] on. *)
Fixpoint repaint_from (element : pointer) (isOTT : bool)
    (oldValues newValues : list value) (i : nat) (memories : list memory_config)
    : M page unit :=
  match memories with
  | [] => ret tt
  | mem :: rest =>
      repaint_one element isOTT oldValues newValues i mem ;;;
      repaint_from element isOTT oldValues newValues (S i) rest
  end.

(** [_repaint(element, memories, oldValues, newValues)], with the flag
    [element.isOTT === true] as an argument. *)
Definition _repaint (element : pointer) (isOTT : bool)
    (memories : list memory_config) (oldValues newValues : list value)
    : M page unit :=
  repaint_from element isOTT oldValues newValues 0 memories.

End Deps.
End Repaint.

(** ** [Mosaic.list] of [src/index.ts] *)

Module Index.

(** The object [Mosaic.list] returns. *)
Record KeyedArray (K V : Type) : Type := {
  keys : list K;
  items : list V;
  isKeyedArray : bool
}.
Arguments keys {K V} _.
Arguments items {K V} _.
Arguments isKeyedArray {K V} _.

(** [Mosaic.list(items, key, map)], lines 158-162 *)
Definition Mosaic_list {A K V : Type} (items : list A) (key : A -> K)
    (map : A -> nat -> V) : KeyedArray K V :=
  let keys := List.map (fun itm => key itm) items in
  let mapped := imap (fun index itm => map itm index) items in
  {| keys := keys; items := mapped; isKeyedArray := true |}.

End Index.

(** ** A marker protocol with an attribute expression, for the closed examples *)

Module AttributeSample.
Import Parser.

(** The string cut at the last [c]: what is before it and what is after. *)
Fixpoint cut_last (c : ascii) (s : string) : option (string * string) :=
  match s with
  | EmptyString => None
  | String x rest =>
      match cut_last c rest with
      | Some (before, after) => Some (String x before, after)
      | None => if Ascii.eqb x c then Some ("", rest) else None
      end
  end.

(** The string cut at the first [c]. *)
Fixpoint cut_first (c : ascii) (s : string) : option (string * string) :=
  match s with
  | EmptyString => None
  | String x rest =>
      if Ascii.eqb x c then Some ("", rest)
      else match cut_first c rest with
           | Some (before, after) => Some (String x before, after)
           | None => None
           end
  end.

(** An expression that finds, at the end of a segment, a space, a name,
    and [=] with what follows: the attribute left open. *)
Definition attribute_exec (str : string) : option regex_match :=
  match cut_last " " str with
  | None => None
  | Some (before, tail) =>
      match cut_first "=" tail with
      | None => None
      | Some (name, opened) =>
          Some {| match_index := String.length before;
                  group1 := " ";
                  group2 := name;
                  group3 := String "=" opened |}
      end
  end.

Definition attribute_markup : Markup :=
  {| nodeMarker := "<!--{{m-0}}-->";
     lastAttributeNameRegex_exec := attribute_exec;
     memorize := fun _ => [] |}.

End AttributeSample.

(** ** The regular expression as an object with state

    [lastAttributeNameRegex.exec(str)] is a method call on a RegExp
    object, and [nodeMarker] is read from the util module at each turn of
    the loop.  A RegExp keeps [lastIndex] between calls; [exec] reads and
    writes it when the expression has the flag [g] or [y]. *)

Module RegExpState.
Import Js Parser.

(** One attempt to match at a fixed position: where the match ends, and
    what the three groups contribute to the markup. *)
Record attempt : Type := {
  end_index : nat;
  capture1 : string;
  capture2 : string;
  capture3 : string
}.

(** A RegExp: its flags and its matcher, which answers for a string and a
    position whether the pattern matches there. *)
Record RegExp : Type := {
  global : bool;
  sticky : bool;
  matcher : string -> nat -> option attempt
}.

(** The search of [exec]: from [index] on, one position after the other,
    until the matcher answers or the end of the string is passed; a
    sticky expression tries the first position only. *)
Fixpoint search (re : RegExp) (str : string) (fuel index : nat)
    : option (nat * attempt) :=
  match matcher re str index with
  | Some a => Some (index, a)
  | None =>
      if sticky re then None
      else match fuel with
           | 0 => None
           | S fuel => search re str fuel (S index)
           end
  end.

(** [RegExp.prototype.exec]: the match and the new [lastIndex].  Without
    [g] and [y] the search starts at 0 and [lastIndex] is left alone;
    with one of them it starts at [lastIndex], which becomes the end of
    the match, or 0 when there is none. *)
Definition RegExp_exec (re : RegExp) (str : string) (lastIndex : nat)
    : option regex_match * nat :=
  let tracked := global re || sticky re in
  let start := if tracked then lastIndex else 0 in
  if Nat.ltb (String.length str) start
  then (None, if tracked then 0 else lastIndex)
  else match search re str (String.length str - start) start with
       | None => (None, if tracked then 0 else lastIndex)
       | Some (index, a) =>
           (Some {| match_index := index;
                    group1 := capture1 a;
                    group2 := capture2 a;
                    group3 := capture3 a |},
            if tracked then end_index a else lastIndex)
       end.

(** What [buildHTML] reads of the util module while it runs. *)
Record script_state : Type := {
  marker : string;
  lastIndex : nat
}.

(** The loop of [buildHTML], lines 98-108, with the state it reads and
    writes: each turn calls [exec] once and reads the marker once. *)
Fixpoint buildHTML_run_from (re : RegExp) (html : string)
    (strings : list string) (st : script_state) : string * script_state :=
  match strings with
  | [] => (html +:+ "undefined", st)
  | [final] => (html +:+ final, st)
  | str :: rest =>
      let (attributeMatch, moved) := RegExp_exec re str (lastIndex st) in
      let piece :=
        match attributeMatch with
        | None => str +:+ marker st
        | Some attributeMatch =>
            String.substring 0 (match_index attributeMatch) str
            +:+ group1 attributeMatch +:+ group2 attributeMatch
            +:+ group3 attributeMatch +:+ marker st
        end in
      buildHTML_run_from re (html +:+ piece) rest
        {| marker := marker st; lastIndex := moved |}
  end.

(** [buildHTML], lines 94-110, as a call in a state. *)
Definition buildHTML_run (re : RegExp) (strings : list string)
    (st : script_state) : string * script_state :=
  buildHTML_run_from re "" strings st.

(** The expression and the marker as the [Markup] of the parser, for an
    expression that keeps no position. *)
Definition stateless_markup (re : RegExp) (marker : string)
    (memorize : string -> list memory_config) : Markup :=
  {| nodeMarker := marker;
     lastAttributeNameRegex_exec := fun str => (RegExp_exec re str 0).1;
     memorize := memorize |}.

(** [/()()(=)$/]: an [=] at the end of the segment. *)
Definition ends_with_equals : RegExp :=
  {| global := false;
     sticky := false;
     matcher := fun str index =>
       if String.eqb
            (String.substring index (String.length str - index) str) "="
       then Some {| end_index := String.length str;
                    capture1 := ""; capture2 := ""; capture3 := "=" |}
       else None |}.

(** [/x()()()/g]: the letter x, with the flag [g]. *)
Definition every_x : RegExp :=
  {| global := true;
     sticky := false;
     matcher := fun str index =>
       if String.prefix "x"
            (String.substring index (String.length str - index) str)
       then Some {| end_index := S index;
                    capture1 := ""; capture2 := ""; capture3 := "" |}
       else None |}.

End RegExpState.

(** ** More hosts and inputs for the closed examples *)

Module MoreSamples.
Import Js Dom Parser.

(** [pattern] occurs in [s]. *)
Fixpoint contains (pattern s : string) : bool :=
  String.prefix pattern s
  || match s with
     | EmptyString => false
     | String _ rest => contains pattern rest
     end.

(** A registry for the closed examples: the expression finds the marker
    of [Samples.sample_markup] where it occurs, and [round-button] is the
    one custom element. *)
Definition sample_registry : Discovery.Registry :=
  {| Discovery.marker_expression_matches := contains "<!--{{m-0}}-->";
     Discovery.customElements_defined := fun name => String.eqb name "round-button" |}.

(** [<a href=... class=... onclick=...>] as [parseAttributes] reads it. *)
Definition sample_link : Discovery.element_view :=
  {| Discovery.nodeName := "a";
     Discovery.attributes :=
       Some [("href", "/user/<!--{{m-0}}-->");
             ("class", "<!--{{m-0}}--> wide");
             ("onclick", "<!--{{m-0}}-->")] |}.

(** An element without a space in any attribute value. *)
Definition sample_button : Discovery.element_view :=
  {| Discovery.nodeName := "round-button";
     Discovery.attributes :=
       Some [("title", "Go"); ("click", "<!--{{m-0}}-->");
             ("href", "/user/<!--{{m-0}}-->")] |}.

(** A page for the closed examples of [_repaint]: the steps of the
    memories committed so far.  [changed] compares with [===] and answers
    true under the force flag, [step] answers the steps it is given, and
    [commit] throws on an [undefined] new value. *)
Definition sample_changed (x y : value) (force : bool) : M (list (list nat)) bool :=
  ret (force || negb (strict_equal x y)).

Definition sample_step (element steps : list nat) : M (list (list nat)) (list nat) :=
  ret steps.

Definition sample_commit (mem : memory_config) (element pointer : list nat)
    (oldv newv : value) : M (list (list nat)) unit :=
  match newv with
  | VUndefined => throw "TypeError: newv is undefined"
  | _ => modify (fun committed => committed ++ [pointer])
  end.

Definition sample_attribute_memory (steps : list nat) : memory_config :=
  {| config_type := "attribute"; config_steps := steps;
     isComponentType := false; isEvent := false;
     config_attribute := Some "title" |}.

Definition sample_node_memory (steps : list nat) : memory_config :=
  {| config_type := "node"; config_steps := steps;
     isComponentType := false; isEvent := false;
     config_attribute := None |}.

(** A text node that carries a listener for [click] and the handler it
    is stored under. *)
Definition listening_text : node :=
  Node 8 (TextKind "x")
    {| eventHandlers := Some {[ "onclick" := 4 ]};
       listeners := [("click", 4)] |} [].

End MoreSamples.

(** * Theorems *)

(** ** The change detector *)

Module ChangedFacts.
Import Js Memory.




Section WithHost.
Context `{Host}.

(** Without a truthy old value the slot is dirty, whatever the new value
    is: line 42 comes before every comparison. *)
Lemma changed_falsy_old (oldValue newValue : value) (force : bool) :
  truthy oldValue = false -> isDirty oldValue newValue force = true.
Proof. intros Hf. unfold isDirty, changed. now rewrite Hf. Qed.

(** C1 (as the code has it): on two functions the detector answers
    whether their source texts are equal, so it reports equal source text
    as dirty and different source text as unchanged. *)
Theorem changed_function_compares_source (r1 r2 : nat) (s1 s2 : string) :
  isDirty (VFunction r1 s1) (VFunction r2 s2) false = String.eqb s1 s2.
Proof. reflexivity. Qed.


End WithHost.

(** The numbers of the examples are binary64 values. *)
Example five_six_valid :
  valid_binary 53 1024 five = true /\ valid_binary 53 1024 six = true.
Proof. split; reflexivity. Qed.



End ChangedFacts.

(** ** Attribute and event commits *)

Module CommitFacts.
Import Js Dom Memory.

Lemma strict_equal_true (v : value) :
  strict_equal v (VBool true) = true <-> v = VBool true.
Proof.
  split.
  - destruct v; simpl; try discriminate. destruct b; [reflexivity | discriminate].
  - intros ->. reflexivity.
Qed.

Section WithUtil.
Context `{Host} `{Util}.

(** C7: on an element, a commit for a boolean attribute leaves the
    attribute present when the value is [true] and absent for every other
    value, whatever the attributes were before; for another attribute name
    the attribute is set to the string form of the value. *)
Theorem commitAttribute_boolean_or_string
    (this : Memory) (a : attribute_option) (child : node) (newValue : value) :
  attribute this = Some a ->
  is_element child = true ->
  exists child' : node,
    commitAttribute this child newValue = Ok child'
    /\ (isBooleanAttribute (attr_name a) = true -> newValue = VBool true ->
        hasAttribute (attr_name a) child' = true
        /\ getAttribute (attr_name a) child' = Some "true")
    /\ (isBooleanAttribute (attr_name a) = true -> newValue <> VBool true ->
        hasAttribute (attr_name a) child' = false)
    /\ (isBooleanAttribute (attr_name a) = false ->
        getAttribute (attr_name a) child' = Some (to_string newValue)).
Proof.
  intros Ha He.
  destruct child as [i k t kids]. destruct k as [tag attrs | |]; try discriminate.
  unfold commitAttribute. rewrite Ha.
  destruct (isBooleanAttribute (attr_name a)) eqn:Hb.
  - destruct (strict_equal newValue (VBool true)) eqn:Hs.
    + eexists. split; [reflexivity |]. split; [| split].
      * intros _ _. unfold hasAttribute, getAttribute, attributes_of. simpl.
        rewrite lookup_insert_eq. split; reflexivity.
      * intros _ Hn. apply strict_equal_true in Hs. contradiction.
      * discriminate.
    + eexists. split; [reflexivity |]. split; [| split].
      * intros _ ->. discriminate.
      * intros _ _. unfold hasAttribute, attributes_of. simpl.
        rewrite lookup_delete_eq. apply bool_decide_eq_false.
        intros [x Hx]. discriminate.
      * discriminate.
  - eexists. split; [reflexivity |]. split; [| split]; try discriminate.
    intros _. unfold getAttribute, attributes_of. simpl.
    apply lookup_insert_eq.
Qed.

End WithUtil.

Lemma commitAttribute_boolean_or_string_witness :
  exists child' : node,
    @commitAttribute Samples.sample_host Samples.sample_util
      {| type := "attribute"; steps := [0; 0; 1];
         attribute := Some {| attr_name := "disabled"; attr_value := VUndefined |};
         event := None |}
      (Samples.keyed_element 7 "button" "k") (VBool false) = Ok child'
    /\ hasAttribute "disabled" child' = false.
Proof.
  destruct (@commitAttribute_boolean_or_string Samples.sample_host
              Samples.sample_util
              {| type := "attribute"; steps := [0; 0; 1];
                 attribute := Some {| attr_name := "disabled";
                                      attr_value := VUndefined |};
                 event := None |}
              {| attr_name := "disabled"; attr_value := VUndefined |}
              (Samples.keyed_element 7 "button" "k") (VBool false)
              eq_refl eq_refl) as [child' [E [_ [Hoff _]]]].
  exists child'. split; [exact E |].
  apply Hoff; [reflexivity | discriminate].
Defined.

End CommitFacts.

(** ** Event commits *)

Module EventFacts.
Import Js Dom Memory.

Lemma listeners_for_remove (type : string) (callback : nat) (n : node) :
  listeners_for type (removeEventListener type callback n)
  = filter (fun h => h <> callback) (listeners_for type n).
Proof.
  destruct n as [i k [eh ls] kids]. unfold listeners_for. simpl.
  induction ls as [| [ty cb] ls IH]; [reflexivity |].
  rewrite !filter_cons. simpl.
  destruct (decide ((ty, cb) <> (type, callback))) as [Hne | Heq];
    destruct (decide (ty = type)) as [-> | Hty]; simpl.
  - rewrite filter_cons. simpl. rewrite decide_True by reflexivity.
    simpl. rewrite filter_cons.
    rewrite decide_True by congruence. f_equal. exact IH.
  - rewrite filter_cons. simpl. rewrite decide_False by assumption. exact IH.
  - rewrite filter_cons. rewrite decide_False; [exact IH |].
    intros Hn. apply Heq. congruence.
  - exfalso. apply Heq. congruence.
Qed.

Lemma listeners_for_add (type : string) (callback : nat) (n : node) :
  listeners_for type n = [] ->
  listeners_for type (addEventListener type callback n) = [callback].
Proof.
  destruct n as [i k [eh ls] kids]. unfold listeners_for. simpl. intros Hnone.
  rewrite bool_decide_eq_false_2.
  - rewrite filter_app, fmap_app, Hnone. simpl.
    rewrite filter_cons. simpl. rewrite decide_True by reflexivity. reflexivity.
  - intros Hin.
    assert (Hm : callback ∈ (filter (fun l : string * nat => l.1 = type) ls).*2).
    { apply list_elem_of_fmap. exists (type, callback). split; [reflexivity |].
      apply list_elem_of_filter. split; [reflexivity | exact Hin]. }
    rewrite Hnone in Hm. inversion Hm.
Qed.


Lemma at_most_stored_length (name : string) (n : node) :
  at_most_stored name n ->
  length (listeners_for (substring_from 2 name) n) <= 1.
Proof. intros [-> | [h [-> _]]]; simpl; lia. Qed.

(** After the removal of the stored handler no listener is left. *)
Lemma listeners_after_removal (name : string) (n : node) :
  at_most_stored name n ->
  listeners_for (substring_from 2 name)
    (match stored_handler name n with
     | Some old => removeEventListener (substring_from 2 name) old n
     | None => n
     end) = [].
Proof.
  intros [Hnone | [h [Hone Hst]]].
  - destruct (stored_handler name n); [| exact Hnone].
    rewrite listeners_for_remove, Hnone. reflexivity.
  - rewrite Hst, listeners_for_remove, Hone.
    rewrite filter_cons. rewrite decide_False by (intros Hn; now apply Hn).
    reflexivity.
Qed.

Lemma commitEvent_steps (this : Memory) (component : nat) (value : value)
    (s : event_state) :
  let name := event_name this in
  let type := substring_from 2 name in
  let cleared := match stored_handler name (child_node s) with
                 | Some old => removeEventListener type old (child_node s)
                 | None => child_node s
                 end in
  let handlers := match eventHandlers (node_target cleared) with
                  | Some h => h
                  | None => ∅
                  end in
  let bound := next_ref s in
  let listening :=
    addEventListener type bound
      (set_eventHandlers (<[name := bound]> handlers) cleared) in
  commitEvent this component value s =
    match value with
    | VFunction _ _ =>
        match removeAttribute name listening with
        | Ok n => (Ok tt, {| child_node := n; next_ref := S (next_ref s) |})
        | Throw what =>
            (Throw what, {| child_node := listening; next_ref := S (next_ref s) |})
        end
    | _ => (Throw "TypeError: value.bind is not a function",
            {| child_node := cleared; next_ref := next_ref s |})
    end.
Proof.
  destruct s as [[i k [eh ls] kids] r].
  unfold commitEvent, event_name, stored_handler, bind, get, on_child, modify,
    ret, bind_function, throw. simpl.
  destruct eh as [h |]; simpl.
  - destruct (h !! _) as [old |] eqn:Hold; simpl;
      destruct value; simpl; try reflexivity;
      destruct k; reflexivity.
  - rewrite lookup_empty. simpl.
    destruct value; simpl; try reflexivity; destruct k; reflexivity.
Qed.


Lemma removeAttribute_Ok (name : string) (n n' : node) :
  removeAttribute name n = Ok n' ->
  node_target n' = node_target n /\ hasAttribute name n' = false.
Proof.
  destruct n as [i [tag attrs | |] t kids]; simpl; try discriminate.
  intros [= <-]. split; [reflexivity |].
  unfold hasAttribute, attributes_of. simpl.
  rewrite lookup_delete_eq. apply bool_decide_eq_false. intros [x Hx].
  discriminate.
Qed.

Lemma listeners_for_target (type : string) (n n' : node) :
  node_target n' = node_target n -> listeners_for type n' = listeners_for type n.
Proof. unfold listeners_for. now intros ->. Qed.

Lemma stored_handler_target (name : string) (n n' : node) :
  node_target n' = node_target n -> stored_handler name n' = stored_handler name n.
Proof. unfold stored_handler. now intros ->. Qed.

(** What a node looks like once the new handler is stored and listening. *)
Lemma listening_state (name : string) (bound : nat) (h : gmap string nat)
    (cleared : node) :
  listeners_for (substring_from 2 name) cleared = [] ->
  let listening :=
    addEventListener (substring_from 2 name) bound
      (set_eventHandlers (<[name := bound]> h) cleared) in
  listeners_for (substring_from 2 name) listening = [bound]
  /\ stored_handler name listening = Some bound.
Proof.
  intros Hnone. split.
  - apply listeners_for_add.
    destruct cleared as [i k [eh ls] kids]. exact Hnone.
  - destruct cleared as [i k [eh ls] kids].
    unfold stored_handler. simpl. apply lookup_insert_eq.
Qed.

Lemma commitEvent_keeps_at_most_stored (this : Memory) (component : nat)
    (value : value) (s : event_state) :
  at_most_stored (event_name this) (child_node s) ->
  at_most_stored (event_name this)
    (child_node (commitEvent this component value s).2).
Proof.
  intros Hinv. rewrite commitEvent_steps. cbv zeta.
  pose proof (listeners_after_removal _ _ Hinv) as Hcleared.
  set (cleared := match stored_handler _ _ with Some _ => _ | None => _ end) in *.
  destruct (listening_state (event_name this) (next_ref s)
              (match eventHandlers (node_target cleared) with
               | Some h => h
               | None => ∅
               end) cleared Hcleared) as [Hl Hs].
  destruct value; try (left; exact Hcleared).
  destruct (removeAttribute _ _) as [n |] eqn:Hr; simpl.
  - apply removeAttribute_Ok in Hr. destruct Hr as [Ht _].
    right. exists (next_ref s).
    rewrite (listeners_for_target _ _ _ Ht), (stored_handler_target _ _ _ Ht).
    split; assumption.
  - right. exists (next_ref s). split; assumption.
Qed.

Lemma commitEvents_keep_at_most_stored (this : Memory) (component : nat)
    (values : list value) (s : event_state) :
  at_most_stored (event_name this) (child_node s) ->
  at_most_stored (event_name this)
    (child_node (commitEvents this component values s)).
Proof.
  revert s. induction values as [| v rest IH]; intros s Hinv; [exact Hinv |].
  simpl. apply IH. now apply commitEvent_keeps_at_most_stored.
Qed.

(** A commit leaves the kind of the addressed node as it is, whether it
    returns or throws. *)
Lemma commitEvent_keeps_kind (this : Memory) (component : nat) (value : value)
    (s : event_state) :
  is_element (child_node (commitEvent this component value s).2)
  = is_element (child_node s).
Proof.
  rewrite commitEvent_steps. cbv zeta.
  destruct s as [[i k [eh ls] kids] r]. cbn [child_node next_ref].
  destruct (stored_handler _ _); destruct value; destruct k; reflexivity.
Qed.

Lemma commitEvents_keep_kind (this : Memory) (component : nat)
    (values : list value) (s : event_state) :
  is_element (child_node (commitEvents this component values s))
  = is_element (child_node s).
Proof.
  revert s. induction values as [| v rest IH]; intros s; [reflexivity |].
  simpl. rewrite IH. apply commitEvent_keeps_kind.
Qed.

(** On an element, the commit of a function returns. *)
Lemma commitEvent_returns (this : Memory) (component : nat) (r : nat)
    (src : string) (s : event_state) :
  is_element (child_node s) = true ->
  exists s' : event_state,
    commitEvent this component (VFunction r src) s = (Ok tt, s')
    /\ next_ref s' = S (next_ref s).
Proof.
  intros Helem. rewrite commitEvent_steps. cbv zeta.
  destruct s as [[i k [eh ls] kids] n]. cbn [child_node next_ref] in *.
  destruct k as [tag attrs | |]; try discriminate.
  destruct (stored_handler _ _); cbn; eexists; split; reflexivity.
Qed.

(** C10: on a node without a listener for the event, after any sequence of
    commits of one event memory the node carries at most one listener for
    that event, whether the commits returned or threw.  A further commit
    that returns has removed the handler stored before, has stored the
    newly bound function under the attribute name as the only listener,
    and has removed the attribute; and on an element every commit of a
    function does return, with one new function object made. *)
Theorem commitEvent_at_most_one_listener (this : Memory) (component : nat)
    (values : list value) (s : event_state) :
  listeners_for (substring_from 2 (event_name this)) (child_node s) = [] ->
  let final := commitEvents this component values s in
  length (listeners_for (substring_from 2 (event_name this)) (child_node final)) <= 1
  /\ (forall (value : value) (s' : event_state),
       commitEvent this component value final = (Ok tt, s') ->
       stored_handler (event_name this) (child_node s') = Some (next_ref final)
       /\ listeners_for (substring_from 2 (event_name this)) (child_node s')
          = [next_ref final]
       /\ hasAttribute (event_name this) (child_node s') = false)
  /\ (forall (r : nat) (src : string),
       is_element (child_node s) = true ->
       exists s' : event_state,
         commitEvent this component (VFunction r src) final = (Ok tt, s')
         /\ next_ref s' = S (next_ref final)
         /\ stored_handler (event_name this) (child_node s')
            = Some (next_ref final)
         /\ listeners_for (substring_from 2 (event_name this)) (child_node s')
            = [next_ref final]
         /\ hasAttribute (event_name this) (child_node s') = false).
Proof.
  intros Hnone final.
  assert (Hinv : at_most_stored (event_name this) (child_node final)).
  { apply commitEvents_keep_at_most_stored. now left. }
  assert (Hret : forall (value : value) (s' : event_state),
             commitEvent this component value final = (Ok tt, s') ->
             stored_handler (event_name this) (child_node s')
             = Some (next_ref final)
             /\ listeners_for (substring_from 2 (event_name this))
                  (child_node s') = [next_ref final]
             /\ hasAttribute (event_name this) (child_node s') = false).
  { intros value s'. rewrite commitEvent_steps. cbv zeta.
    pose proof (listeners_after_removal _ _ Hinv) as Hcleared.
    set (cleared := match stored_handler _ _ with Some _ => _ | None => _ end) in *.
    destruct (listening_state (event_name this) (next_ref final)
                (match eventHandlers (node_target cleared) with
                 | Some h => h
                 | None => ∅
                 end) cleared Hcleared) as [Hl Hs].
    destruct value; try discriminate.
    destruct (removeAttribute _ _) as [n |] eqn:Hr; try discriminate.
    intros [= <-]. simpl.
    apply removeAttribute_Ok in Hr. destruct Hr as [Ht Hattr].
    rewrite (listeners_for_target _ _ _ Ht), (stored_handler_target _ _ _ Ht).
    repeat split; assumption. }
  split; [now apply at_most_stored_length | split; [exact Hret |]].
  intros r src Helem.
  assert (Hfinal : is_element (child_node final) = true).
  { subst final. now rewrite commitEvents_keep_kind. }
  destruct (commitEvent_returns this component r src final Hfinal)
    as [s' [Hrun Hnext]].
  exists s'. split; [exact Hrun | split; [exact Hnext |]].
  exact (Hret _ _ Hrun).
Qed.

Lemma commitEvent_at_most_one_listener_witness :
  length (listeners_for "click" (child_node Samples.three_commits)) <= 1
  /\ exists s' : event_state,
       commitEvent Samples.onclick_memory 0 (VFunction 3 "() => 3")
         Samples.three_commits = (Ok tt, s')
       /\ next_ref s' = S (next_ref Samples.three_commits)
       /\ stored_handler "onclick" (child_node s')
          = Some (next_ref Samples.three_commits)
       /\ listeners_for "click" (child_node s')
          = [next_ref Samples.three_commits]
       /\ hasAttribute "onclick" (child_node s') = false.
Proof.
  pose proof (commitEvent_at_most_one_listener Samples.onclick_memory 0
                [VFunction 1 "() => 1"; VUndefined; VFunction 2 "() => 2"]
                Samples.fresh_button eq_refl) as [Hlen [_ Hret]].
  split; [exact Hlen |].
  exact (Hret 3 "() => 3" eq_refl).
Defined.

End EventFacts.

(** ** Keyed arrays *)

Module KeyedFacts.
Import Js Dom Memory.

(** C5: the deletions are the old keys that are no new keys, the additions
    are the new keys that are no old keys, each with its position among
    the new keys; old keys [a, b, c] and new keys [a, c, d] give the
    deletion [b] and the addition of [d] at index 2. *)
Theorem getArrayDifferences_key_set_difference (oldKeys newKeys : list string) :
  (forall k : string,
      k ∈ deletions (getArrayDifferences oldKeys newKeys)
      <-> k ∈ oldKeys /\ k ∉ newKeys)
  /\ (forall (k : string) (i : nat),
        {| key := k; index := i |} ∈ additions (getArrayDifferences oldKeys newKeys)
        <-> newKeys !! i = Some k /\ k ∉ oldKeys)
  /\ getArrayDifferences ["a"; "b"; "c"] ["a"; "c"; "d"]
     = {| deletions := ["b"];
          additions := [{| key := "d"; index := 2 |}] |}.
Proof.
  split; [| split].
  - intros k. unfold getArrayDifferences. simpl.
    rewrite list_elem_of_filter. tauto.
  - intros k i. unfold getArrayDifferences. simpl.
    rewrite list_elem_of_filter. simpl. rewrite elem_of_lookup_imap.
    split.
    + intros [Hk [j [x [[= -> ->] Hx]]]]. split; assumption.
    + intros [Hi Hk]. split; [assumption |]. exists i, k. split; [reflexivity | assumption].
  - vm_compute. reflexivity.
Qed.


Lemma first_some_flat (p : node -> bool) (f : node -> option nat) (l : list node) :
  Forall (fun n => f n = node_id <$> head (List.filter p (nodes_below n))) l ->
  first_some f l = node_id <$> head (List.filter p (List.flat_map nodes_below l)).
Proof.
  induction 1 as [| n rest Hn _ IH]; [reflexivity |].
  simpl. rewrite List.filter_app, Hn, IH.
  destruct (List.filter p (nodes_below n)); reflexivity.
Qed.

Lemma first_element_first (k : string) (n : node) :
  first_element (has_key k) n
  = node_id <$> head (List.filter (keyed k) (nodes_below n)).
Proof.
  induction n as [i kd t kids IH] using node_nested_ind.
  cbn [first_element nodes_below List.filter].
  fold (keyed k (Node i kd t kids)).
  destruct (keyed k (Node i kd t kids)); [reflexivity |].
  now apply first_some_flat.
Qed.

(** For a plain key the query answers the first element of the whole
    document, in tree order, that carries the key. *)
Lemma querySelector_key_first `{Selectors} (k : string) (d : document) :
  plain_key k = true ->
  querySelector_key k d = Ok (node_id <$> first_keyed k d).
Proof.
  intros Hplain. unfold querySelector_key, first_keyed, nodes. rewrite Hplain.
  f_equal. apply first_some_flat. apply Forall_forall. intros n _.
  apply first_element_first.
Qed.

Lemma delete_one_delete_key `{Selectors} (k : string) (s : commit_state) :
  plain_key k = true ->
  delete_one k s = (Ok tt, {| doc := delete_key (doc s) k; trace := trace s |}).
Proof.
  intros Hplain.
  unfold delete_one, delete_key, bind, get, on_doc, modify, ret, lift.
  rewrite (querySelector_key_first k (doc s) Hplain).
  destruct (first_keyed k (doc s)); simpl; [reflexivity |].
  now destruct s.
Qed.

Lemma forEach_delete_one `{Selectors} (ks : list string) (s : commit_state) :
  Forall (fun k => plain_key k = true) ks ->
  forEach ks delete_one s
  = (Ok tt, {| doc := foldl delete_key (doc s) ks; trace := trace s |}).
Proof.
  intros Hplain. revert s.
  induction Hplain as [| k ks Hk _ IH]; intros s; simpl.
  - now destruct s.
  - unfold bind. rewrite (delete_one_delete_key k s Hk). rewrite IH. reflexivity.
Qed.

(** A removed node is in the document no more. *)
Lemma gone_from_list (id : nat) (l : list node) :
  Forall (fun n => gone_from id [n]) l -> gone_from id l.
Proof.
  unfold gone_from.
  induction 1 as [| x rest Hx _ IH]; [apply not_elem_of_nil |].
  cbn [List.map List.filter] in *.
  destruct (is_not id (remove_below id x)).
  - cbn [List.flat_map] in *. rewrite app_nil_r in Hx.
    rewrite fmap_app, elem_of_app. tauto.
  - exact IH.
Qed.

Lemma remove_below_gone (id : nat) (n : node) : gone_from id [n].
Proof.
  induction n as [i kd t kids IH] using node_nested_ind.
  apply gone_from_list in IH. unfold gone_from in *.
  cbn [List.map List.filter remove_below].
  unfold is_not at 1. cbn [node_id].
  destruct (Nat.eqb i id) eqn:Hi; cbn [negb List.flat_map].
  - apply not_elem_of_nil.
  - rewrite app_nil_r. cbn [nodes_below].
    rewrite fmap_cons. cbn [node_id].
    rewrite not_elem_of_cons. split; [| exact IH].
    apply Nat.eqb_neq in Hi. congruence.
Qed.

Lemma remove_gone (id : nat) (d : document) :
  id ∉ node_id <$> nodes (remove id d).
Proof.
  apply (gone_from_list id d). apply Forall_forall. intros n _.
  apply remove_below_gone.
Qed.


Section WithUtil.
Context `{Util} `{Selectors}.


(** When the walk from the anchor runs out of siblings, the addition
    returns and leaves the document as it was. *)
Lemma insert_one_without_sibling (child : nat) (oldMapped newMapped : list item)
    (object : addition) (newMappedItem : item) (s : commit_state) :
  newMapped !! index object = Some newMappedItem ->
  is_element (element newMappedItem) = true ->
  walk_siblings (index object) (Some child) (doc s) = None ->
  (insert_one child oldMapped newMapped object s).1 = Ok tt
  /\ doc (insert_one child oldMapped newMapped object s).2 = doc s.
Proof.
  intros Hitem Helem Hwalk. unfold insert_one. rewrite Hitem.
  destruct (element newMappedItem) as [i [tag attrs | |] t kids];
    try discriminate.
  unfold bind, lift, get, ret, emit, modify. cbn. rewrite Hwalk.
  destruct (Nat.leb _ _), (created newMappedItem); split; reflexivity.
Qed.

(** C2 (as the code has it): the list [a] ends its parent, and the item
    [b] comes in at index 1, the length of the list.  The walk from the
    anchor runs out of siblings, the commit returns without a throw, and
    the document is as before: [b] was not inserted. *)
Theorem commitKeyedArray_append_at_end_inserts_nothing :
  commitKeyedArray_incremental 2 Samples.list_a Samples.list_a_b
    {| doc := Samples.one_item_list; trace := [] |}
  = (Ok tt, {| doc := Samples.one_item_list; trace := [Created 103] |})
  /\ first_keyed "b" Samples.one_item_list = None.
Proof. split; vm_compute; reflexivity. Qed.

End WithUtil.



Example commitKeyedArray_append_before_text :
  @commitKeyedArray_incremental Samples.sample_util Samples.sample_selectors 2
    Samples.list_a
    Samples.list_a_b {| doc := Samples.one_item_list_then_text; trace := [] |}
  = (Ok tt,
     {| doc := [Samples.plain_element 1 "ul"
                  [Samples.keyed_element 2 "li" "a";
                   Samples.keyed_element 3 "li" "b";
                   Node 9 (TextKind " ") Samples.no_target []]];
        trace := [Created 103] |}).
Proof. vm_compute. reflexivity. Qed.

End KeyedFacts.

(** ** Templates *)

Module ParserFacts.
Import Js Parser.

Section WithMarkup.
Context `{Markup}.

Lemma append_assoc (a b c : string) : (a +:+ b) +:+ c = a +:+ (b +:+ c).
Proof.
  induction a as [| ch a IH]; [reflexivity |].
  change (String ch ((a +:+ b) +:+ c) = String ch (a +:+ b +:+ c)).
  now rewrite IH.
Qed.

(** The loop appends the marked segments in order, then the last segment. *)
Lemma buildHTML_from_segments (html : string) (segments : list string)
    (final : string) :
  buildHTML_from html (segments ++ [final])
  = html +:+ String.concat "" (List.map with_marker segments) +:+ final.
Proof.
  revert html. induction segments as [| str rest IH]; intros html.
  - reflexivity.
  - change ((str :: rest) ++ [final]) with (str :: (rest ++ [final])).
    assert (Hstep : buildHTML_from html (str :: (rest ++ [final]))
                    = buildHTML_from (html +:+ with_marker str) (rest ++ [final])).
    { destruct rest; reflexivity. }
    rewrite Hstep, IH, append_assoc. f_equal.
    destruct rest as [| str' rest'].
    + reflexivity.
    + cbn [List.map String.concat]. now rewrite append_assoc.
Qed.

(** [getTemplate] puts nothing into the document. *)
Lemma getTemplate_keeps_document (component : MosaicComponent) (w : world) :
  document (getTemplate component w).2 = document w.
Proof.
  unfold getTemplate, bind, get, ret, log_call, modify, createElement_template.
  destruct (getElementById _ _); [reflexivity |].
  destruct (view component); reflexivity.
Qed.

Lemma getElementById_nil (t : string) : getElementById t [] = None.
Proof. unfold getElementById. now destruct (String.eqb t ""). Qed.

(** What a call does when the look-up misses and there is a view. *)
Lemma getTemplate_compiles (component : MosaicComponent) (v : ViewFunction)
    (w : world) :
  view component = Some v ->
  getElementById (tid component) (document w) = None ->
  getTemplate component w
  = (Ok {| ref := next_ref w; id := tid component;
           innerHTML := buildHTML (strings v);
           memories := Some (memorize (buildHTML (strings v))) |},
     {| document := document w; next_ref := S (next_ref w);
        calls := calls w ++ [ViewCalled (tid component);
                             BuildHTMLCalled (strings v);
                             MemorizeCalled (next_ref w)] |}).
Proof.
  intros Hview Hmiss.
  unfold getTemplate, bind, get. cbn. rewrite Hmiss, Hview. cbn.
  now rewrite <- !app_assoc.
Qed.

(** C3 (as the code has it): the template [getTemplate] makes never enters
    the document, so the look-up by id misses again; two calls for the
    same component call the view twice and build and memorize twice, and
    the second call returns a new template. *)
Theorem getTemplate_twice_compiles_twice (t : string) (v : ViewFunction)
    (next : nat) (before : list call) :
  let component := {| tid := t; view := Some v |} in
  let w0 := {| document := []; next_ref := next; calls := before |} in
  let first := getTemplate component w0 in
  let second := getTemplate component first.2 in
  calls second.2
  = before ++ [ViewCalled t; BuildHTMLCalled (strings v); MemorizeCalled next;
               ViewCalled t; BuildHTMLCalled (strings v);
               MemorizeCalled (S next)]
  /\ document second.2 = []
  /\ (exists t1 t2 : HTMLTemplateElement,
        first.1 = Ok t1 /\ second.1 = Ok t2
        /\ ref t1 = next /\ ref t2 = S next).
Proof.
  cbv zeta.
  rewrite (getTemplate_compiles {| tid := t; view := Some v |} v
             {| document := []; next_ref := next; calls := before |} eq_refl
             (getElementById_nil t)).
  cbn [snd fst tid next_ref calls document].
  rewrite (getTemplate_compiles {| tid := t; view := Some v |} v
             {| document := []; next_ref := S next;
                calls := before ++ [ViewCalled t; BuildHTMLCalled (strings v);
                                    MemorizeCalled next] |} eq_refl
             (getElementById_nil t)).
  cbn. split; [now rewrite <- app_assoc | split; [reflexivity |]].
  eexists; eexists; repeat split.
Qed.

(** C8: for a component without a view, when no element of the document
    has the component's id, [getTemplate] returns a new template: empty,
    without slot descriptors, outside the document; nothing is called and
    nothing throws. *)
Theorem getTemplate_without_view (component : MosaicComponent) (w : world) :
  view component = None ->
  getElementById (tid component) (document w) = None ->
  getTemplate component w
  = (Ok {| ref := next_ref w; id := ""; innerHTML := ""; memories := None |},
     {| document := document w; next_ref := S (next_ref w); calls := calls w |}).
Proof.
  intros Hview Hmiss.
  unfold getTemplate, bind, get. cbn. rewrite Hmiss, Hview. reflexivity.
Qed.

End WithMarkup.

Lemma getTemplate_without_view_witness :
  @getTemplate Samples.sample_markup {| tid := "t1"; view := None |}
    {| document := [{| ref := 0; id := "app"; innerHTML := "";
                       memories := None |}];
       next_ref := 1; calls := [] |}
  = (Ok {| ref := 1; id := ""; innerHTML := ""; memories := None |},
     {| document := [{| ref := 0; id := "app"; innerHTML := "";
                        memories := None |}];
        next_ref := 2; calls := [] |}).
Proof.
  exact (@getTemplate_without_view Samples.sample_markup
           {| tid := "t1"; view := None |}
           {| document := [{| ref := 0; id := "app"; innerHTML := "";
                              memories := None |}];
              next_ref := 1; calls := [] |} eq_refl eq_refl).
Defined.

Example buildHTML_examples :
  @buildHTML Samples.sample_markup ["<p>"; "</p>"] = "<p><!--{{m-0}}--></p>"
  /\ @buildHTML Samples.sample_markup [] = "undefined".
Proof. split; reflexivity. Qed.

(** Without the flags [g] and [y], [exec] is a function of the string and
    leaves [lastIndex] alone. *)
Lemma RegExp_exec_stateless (re : RegExpState.RegExp) (str : string)
    (lastIndex : nat) :
  RegExpState.global re = false -> RegExpState.sticky re = false ->
  RegExpState.RegExp_exec re str lastIndex
  = ((RegExpState.RegExp_exec re str 0).1, lastIndex).
Proof.
  intros Hg Hy. unfold RegExpState.RegExp_exec. rewrite Hg, Hy. cbn.
  destruct (RegExpState.search re str _ 0) as [[index a] |]; reflexivity.
Qed.

Lemma buildHTML_run_from_stateless (re : RegExpState.RegExp)
    (memorize : string -> list memory_config) (strings : list string) :
  RegExpState.global re = false -> RegExpState.sticky re = false ->
  forall (html : string) (st : RegExpState.script_state),
    RegExpState.buildHTML_run_from re html strings st
    = (@buildHTML_from
         (RegExpState.stateless_markup re (RegExpState.marker st) memorize)
         html strings, st).
Proof.
  intros Hg Hy. induction strings as [| str rest IH]; intros html st;
    [reflexivity |].
  destruct rest as [| next rest]; [reflexivity |].
  change (RegExpState.buildHTML_run_from re html (str :: next :: rest) st)
    with (let (attributeMatch, moved) :=
            RegExpState.RegExp_exec re str (RegExpState.lastIndex st) in
          RegExpState.buildHTML_run_from re
            (html +:+
             match attributeMatch with
             | None => str +:+ RegExpState.marker st
             | Some attributeMatch =>
                 String.substring 0 (match_index attributeMatch) str
                 +:+ group1 attributeMatch +:+ group2 attributeMatch
                 +:+ group3 attributeMatch +:+ RegExpState.marker st
             end) (next :: rest)
            {| RegExpState.marker := RegExpState.marker st;
               RegExpState.lastIndex := moved |}).
  rewrite (RegExp_exec_stateless re str _ Hg Hy). cbv iota beta.
  rewrite IH. cbn [RegExpState.marker]. destruct st as [m li]. reflexivity.
Qed.

(** C6: with an expression that has neither the flag [g] nor the flag
    [y], the markup [buildHTML] returns depends on the segments and the
    marker only: two calls on the same segments return the same markup
    from whatever positions the expression was left at, a call leaves the
    state as it found it, so that a second call right after the first
    returns the same again, and the markup is the one of the loop without
    state. *)
Theorem buildHTML_run_pure (re : RegExpState.RegExp) (strings : list string)
    (st st' : RegExpState.script_state) :
  RegExpState.global re = false -> RegExpState.sticky re = false ->
  RegExpState.marker st = RegExpState.marker st' ->
  (RegExpState.buildHTML_run re strings st).1
  = (RegExpState.buildHTML_run re strings st').1
  /\ (RegExpState.buildHTML_run re strings st).2 = st
  /\ RegExpState.buildHTML_run re strings
       (RegExpState.buildHTML_run re strings st).2
     = RegExpState.buildHTML_run re strings st
  /\ (forall memorize : string -> list memory_config,
        (RegExpState.buildHTML_run re strings st).1
        = @buildHTML
            (RegExpState.stateless_markup re (RegExpState.marker st) memorize)
            strings).
Proof.
  intros Hg Hy Hmarker. unfold RegExpState.buildHTML_run.
  rewrite !(buildHTML_run_from_stateless re (fun _ => []) strings Hg Hy).
  cbn [fst snd].
  rewrite ?(buildHTML_run_from_stateless re (fun _ => []) strings Hg Hy).
  split; [now rewrite Hmarker | split; [reflexivity | split; [reflexivity |]]].
  intros memorize. reflexivity.
Qed.

Lemma buildHTML_run_pure_witness :
  (RegExpState.buildHTML_run RegExpState.ends_with_equals
     ["<a href="; " id="; ">"]
     {| RegExpState.marker := "<!--m-->"; RegExpState.lastIndex := 0 |}).1
  = (RegExpState.buildHTML_run RegExpState.ends_with_equals
       ["<a href="; " id="; ">"]
       {| RegExpState.marker := "<!--m-->"; RegExpState.lastIndex := 7 |}).1.
Proof.
  exact (proj1 (buildHTML_run_pure RegExpState.ends_with_equals
                  ["<a href="; " id="; ">"]
                  {| RegExpState.marker := "<!--m-->";
                     RegExpState.lastIndex := 0 |}
                  {| RegExpState.marker := "<!--m-->";
                     RegExpState.lastIndex := 7 |}
                  eq_refl eq_refl eq_refl)).
Defined.

(** With the flag [g] the expression keeps its position between calls:
    the first call on [ax] finds the x and leaves the position after it,
    and the second call, on the same segments, finds nothing. *)
Example buildHTML_run_with_flag_g :
  RegExpState.buildHTML_run RegExpState.every_x ["ax"; ""]
    {| RegExpState.marker := "<!--m-->"; RegExpState.lastIndex := 0 |}
  = ("a<!--m-->",
     {| RegExpState.marker := "<!--m-->"; RegExpState.lastIndex := 2 |})
  /\ RegExpState.buildHTML_run RegExpState.every_x ["ax"; ""]
       {| RegExpState.marker := "<!--m-->"; RegExpState.lastIndex := 2 |}
     = ("ax<!--m-->",
        {| RegExpState.marker := "<!--m-->"; RegExpState.lastIndex := 0 |}).
Proof. split; vm_compute; reflexivity. Qed.

End ParserFacts.

(** ** More on the change detector *)

Module ChangedMore.
Import Js Memory ValueKinds.

Lemma is_falsy_truthy (v : value) : is_falsy v <-> truthy v = false.
Proof.
  unfold is_falsy. split.
  - intros [-> | [-> | [-> | [[s ->] | [-> | ->]]]]]; reflexivity.
  - destruct v as [| | b | x | s | | | | | |]; simpl; try discriminate; auto.
    + destruct b; [discriminate | auto].
    + destruct x; try discriminate; eauto 10.
    + destruct s; [auto 10 | discriminate].
Qed.

Section WithHost.
Context `{Host}.

(** A falsy old value (undefined, null, false, 0, -0, NaN, the empty
    string) makes the slot dirty whatever the new value and the flag are,
    also when the new value is the same; no helper is called. *)
Theorem changed_falsy_old_always_dirty (oldValue newValue : value) (force : bool) :
  is_falsy oldValue ->
  changed oldValue newValue force = (true, [])
  /\ isDirty oldValue oldValue false = true.
Proof.
  intros Hf. apply is_falsy_truthy in Hf.
  unfold isDirty, changed. rewrite Hf. split; reflexivity.
Qed.

(** A new value that is an array or a keyed array is dirty whatever the
    old value and the flag are; for an array no helper is called. *)
Theorem changed_lists_always_dirty (oldValue : value) (force : bool)
    (ref : nat) (elems : list value) :
  changed oldValue (VArray ref elems) force = (true, [])
  /\ isDirty oldValue (VKeyedArray ref elems) force = true.
Proof.
  unfold isDirty, changed.
  destruct (truthy oldValue), force; split; reflexivity.
Qed.

(** [cleanUpMosaic] is called on the old value exactly when the flag is
    off, the old value is a component, the new value is an object that is
    no function, array or keyed array, and the slot is dirty.  So a
    component that gives way to a primitive, a function or a list, or
    that is replaced under the force flag, is not cleaned up. *)
Theorem changed_cleans_up_iff (oldValue newValue : value) (force : bool)
    (r : nat) :
  CleanUpMosaic r ∈ (changed oldValue newValue force).2
  <-> force = false
      /\ (exists tid iid injected, oldValue = VMosaic r tid iid injected)
      /\ is_plain_object newValue = true
      /\ isDirty oldValue newValue force = true.
Proof.
  unfold isDirty. split.
  - intros Hin. destruct force.
    { unfold changed in Hin. rewrite orb_true_r in Hin. inversion Hin. }
    split; [reflexivity |].
    unfold changed in *. rewrite orb_false_r in *.
    destruct (truthy oldValue) eqn:Ht; cbn [negb] in *; [| inversion Hin].
    destruct newValue; cbn [isPrimitive] in *;
      try (inversion Hin; fail);
      try (cbn in Hin; repeat (apply elem_of_cons in Hin as [Hin | Hin];
                               [discriminate |]); inversion Hin; fail).
    all: destruct oldValue; cbn [is_plain_object] in *;
      try (cbn in Hin; inversion Hin; fail);
      try (destruct (String.eqb _ _) in Hin; cbn in Hin; inversion Hin; fail).
    all: repeat match goal with
         | Hx : context [if ?c then _ else _] |- _ => destruct c eqn:?
         end; cbn in *;
      repeat match goal with
      | Hx : _ ∈ _ :: _ |- _ => apply elem_of_cons in Hx as [Hx | Hx]
      | Hx : _ ∈ [] |- _ => inversion Hx
      | Hx : CleanUpMosaic _ = _ |- _ => inversion Hx; subst; clear Hx
      end;
      try discriminate;
      (split; [eauto | split; reflexivity]).
  - intros [-> [[t [i [inj ->]]] [Ho Hd]]].
    unfold changed in *. cbn in *.
    destruct newValue; try discriminate; cbn in *.
    + destruct (negb (String.eqb _ _)); [apply elem_of_cons; now left |].
      destruct (negb (option_string_eqb _ _)); [| discriminate].
      apply elem_of_cons; right. apply elem_of_cons; now left.
    + apply elem_of_cons; now left.
    + apply elem_of_cons; now left.
Qed.

(** The text of an array whose elements all render as [[object Object]]
    is fixed by the number of its elements. *)
Lemma to_string_objects (r r' : nat) (l l' : list value) :
  Forall (fun v => renders_as_object v = true) l ->
  Forall (fun v => renders_as_object v = true) l' ->
  length l = length l' ->
  to_string (VArray r l) = to_string (VArray r' l').
Proof.
  intros Hl. revert l'. cbn [to_string].
  induction Hl as [| x rest Hx Hrest IH]; intros l' Hl' Hlen.
  - destruct l'; [reflexivity | discriminate].
  - destruct Hl' as [| y rest' Hy Hrest']; [discriminate |].
    injection Hlen as Hlen. specialize (IH rest' Hrest' Hlen).
    assert (Ex : forall v, renders_as_object v = true ->
                 match v with
                 | VUndefined | VNull => ""
                 | _ => to_string v
                 end = "[object Object]").
    { intros v Hv. destruct v; try discriminate; reflexivity. }
    rewrite (Ex x Hx), (Ex y Hy).
    destruct rest, rest'; try discriminate; [reflexivity |].
    now rewrite IH.
Qed.

(** Two templates whose values all render as [[object Object]]
    (components, templates, keyed arrays, plain objects) and are equally
    many are reported unchanged, whatever the objects are. *)
Theorem changed_template_of_objects_unchanged (r1 r2 : nat)
    (oldValues newValues : list value) :
  Forall (fun v => renders_as_object v = true) oldValues ->
  Forall (fun v => renders_as_object v = true) newValues ->
  length oldValues = length newValues ->
  changed (VTemplate r1 oldValues) (VTemplate r2 newValues) false = (false, []).
Proof.
  intros Ho Hn Hlen. unfold changed. cbn -[to_string].
  rewrite (to_string_objects 0 0 oldValues newValues Ho Hn Hlen).
  now rewrite String.eqb_refl.
Qed.

End WithHost.

Lemma changed_falsy_old_always_dirty_witness :
  @changed Samples.sample_host (VNumber (S754_zero false))
    (VNumber (S754_zero false)) false = (true, []).
Proof.
  exact (proj1 (@changed_falsy_old_always_dirty Samples.sample_host
                  (VNumber (S754_zero false)) (VNumber (S754_zero false)) false
                  (or_intror (or_intror (or_intror (or_introl
                     (ex_intro _ false eq_refl))))))).
Defined.

Lemma changed_template_of_objects_unchanged_witness :
  @changed Samples.sample_host (VTemplate 1 [VObject 2; VMosaic 3 "t" "i" VNull])
    (VTemplate 4 [VTemplate 5 []; VObject 6]) false = (false, []).
Proof.
  apply (@changed_template_of_objects_unchanged Samples.sample_host).
  - repeat constructor.
  - repeat constructor.
  - reflexivity.
Defined.

End ChangedMore.

(** ** More on the attribute and event commits *)

Module CommitMore.
Import Js Dom Memory.

Section WithUtil.
Context `{Host} `{Util}.

(** A commit of an attribute memory that returns leaves the identity, the
    kind, the children, the listeners and every other attribute of the
    node as they were, and a second commit of the same value changes
    nothing more. *)
Theorem commitAttribute_frame (this : Memory) (child child' : node)
    (newValue : value) :
  commitAttribute this child newValue = Ok child' ->
  node_id child' = node_id child
  /\ nodeType child' = nodeType child
  /\ node_children child' = node_children child
  /\ node_target child' = node_target child
  /\ (forall other : string,
        (forall a, attribute this = Some a -> other <> attr_name a) ->
        getAttribute other child' = getAttribute other child)
  /\ commitAttribute this child' newValue = Ok child'.
Proof.
  unfold commitAttribute.
  destruct (attribute this) as [a |] eqn:Ha.
  2:{ intros [= <-]. repeat split; try reflexivity. }
  destruct child as [i [tag attrs | d | d] t kids];
    try (destruct (isBooleanAttribute _); [destruct (strict_equal _ _) |];
         discriminate).
  destruct (isBooleanAttribute (attr_name a));
    [destruct (strict_equal newValue (VBool true)) |];
    cbn; intros [= <-]; cbn;
    (repeat split; try reflexivity;
     [ intros other Hother; specialize (Hother a eq_refl);
       unfold getAttribute, attributes_of; cbn;
       first [ apply lookup_insert_ne | apply lookup_delete_ne ]; congruence
     | first [ now rewrite insert_insert_eq
             | f_equal; f_equal; f_equal; apply map_eq; intros k;
               destruct (decide (k = attr_name a)) as [-> | Hne];
               [ now rewrite !lookup_delete_eq
               | now rewrite !lookup_delete_ne by congruence ] ] ]).
Qed.

(** Without an attribute in the memory the commit returns and leaves the
    node alone, whatever the node is; with one, on a node that is no
    element, it throws. *)
Theorem commitAttribute_edges (this : Memory) (child : node) (newValue : value) :
  (attribute this = None -> commitAttribute this child newValue = Ok child)
  /\ (is_Some (attribute this) -> is_element child = false ->
      exists what, commitAttribute this child newValue = Throw what).
Proof.
  unfold commitAttribute. split.
  - now intros ->.
  - intros [a ->] He.
    destruct child as [i [tag attrs | d | d] t kids]; try discriminate;
      destruct (isBooleanAttribute _); [destruct (strict_equal _ _) | |
                                        destruct (strict_equal _ _) |];
      eexists; reflexivity.
Qed.

End WithUtil.

Lemma commitAttribute_frame_witness :
  getAttribute "key"
    (Node 7 (ElementKind "button" (<[ "title" := "Go" ]> {[ "key" := "k" ]}))
       Samples.no_target [])
  = getAttribute "key" (Samples.keyed_element 7 "button" "k").
Proof.
  refine (proj1 (proj2 (proj2 (proj2 (proj2
    (@commitAttribute_frame Samples.sample_host Samples.sample_util
       {| type := "attribute"; steps := [0; 0; 1];
          attribute := Some {| attr_name := "title"; attr_value := VUndefined |};
          event := None |}
       (Samples.keyed_element 7 "button" "k")
       (Node 7 (ElementKind "button" (<[ "title" := "Go" ]> {[ "key" := "k" ]}))
          Samples.no_target [])
       (VString "Go") eq_refl))))) "key" _).
  intros a [= <-]. discriminate.
Defined.

Lemma listeners_for_remove_other (type type' : string) (callback : nat)
    (n : node) :
  type' <> type ->
  listeners_for type' (removeEventListener type callback n)
  = listeners_for type' n.
Proof.
  intros Hne. destruct n as [i k [eh ls] kids]. unfold listeners_for. cbn.
  f_equal. induction ls as [| [ty cb] ls IH]; [reflexivity |].
  rewrite !filter_cons. cbn.
  destruct (decide ((ty, cb) <> (type, callback))) as [Hk | Hk].
  - rewrite filter_cons. cbn. now rewrite IH.
  - destruct (decide (ty = type')) as [-> | Hty]; [| exact IH].
    exfalso. apply Hk. congruence.
Qed.

Lemma listeners_for_add_other (type type' : string) (callback : nat) (n : node) :
  type' <> type ->
  listeners_for type' (addEventListener type callback n)
  = listeners_for type' n.
Proof.
  intros Hne. destruct n as [i k [eh ls] kids]. unfold listeners_for. cbn.
  destruct (bool_decide _); [reflexivity |].
  rewrite filter_app, filter_cons. cbn.
  rewrite decide_False by congruence. cbn. now rewrite app_nil_r.
Qed.

Lemma removeAttribute_frame (name : string) (n n' : node) :
  removeAttribute name n = Ok n' ->
  node_id n' = node_id n /\ node_children n' = node_children n
  /\ node_target n' = node_target n
  /\ forall other, other <> name -> getAttribute other n' = getAttribute other n.
Proof.
  destruct n as [i [tag attrs | |] t kids]; cbn; try discriminate.
  intros [= <-]. repeat split. intros other Hne.
  unfold getAttribute, attributes_of. cbn. now apply lookup_delete_ne.
Qed.

(** Whether it returns or throws, a commit of an event memory leaves the
    identity and the children of the node, its listeners for every other
    event, the handlers stored under every other name and every other
    attribute as they were. *)
Theorem commitEvent_frame (this : Memory) (component : nat) (value : value)
    (s : event_state) :
  let before := child_node s in
  let after := child_node (commitEvent this component value s).2 in
  node_id after = node_id before
  /\ node_children after = node_children before
  /\ (forall type', type' <> substring_from 2 (event_name this) ->
        listeners_for type' after = listeners_for type' before)
  /\ (forall other, other <> event_name this ->
        stored_handler other after = stored_handler other before)
  /\ (forall other, other <> event_name this ->
        getAttribute other after = getAttribute other before).
Proof.
  cbv zeta. rewrite EventFacts.commitEvent_steps. cbv zeta.
  set (name := event_name this). set (type := substring_from 2 name).
  set (cleared := match stored_handler name (child_node s) with
                  | Some old => removeEventListener type old (child_node s)
                  | None => child_node s
                  end).
  assert (Hc : node_id cleared = node_id (child_node s)
               /\ node_children cleared = node_children (child_node s)
               /\ (forall type', type' <> type ->
                     listeners_for type' cleared
                     = listeners_for type' (child_node s))
               /\ (forall other, stored_handler other cleared
                                 = stored_handler other (child_node s))
               /\ (forall other, getAttribute other cleared
                                 = getAttribute other (child_node s))).
  { subst cleared. destruct (stored_handler name (child_node s)) as [old |].
    - destruct (child_node s) as [i k [eh ls] kids].
      repeat split; try reflexivity.
      intros type' Hne.
      now apply (listeners_for_remove_other type type' old
                   (Node i k {| eventHandlers := eh; listeners := ls |} kids)).
    - repeat split; reflexivity. }
  destruct Hc as [Hid [Hkids [Hl [Hs Ha]]]].
  set (handlers := match eventHandlers (node_target cleared) with
                   | Some h => h
                   | None => ∅
                   end).
  set (listening := addEventListener type (next_ref s)
                      (set_eventHandlers (<[name := next_ref s]> handlers) cleared)).
  assert (Hg : node_id listening = node_id (child_node s)
               /\ node_children listening = node_children (child_node s)
               /\ (forall type', type' <> type ->
                     listeners_for type' listening
                     = listeners_for type' (child_node s))
               /\ (forall other, other <> name ->
                     stored_handler other listening
                     = stored_handler other (child_node s))
               /\ (forall other, getAttribute other listening
                                 = getAttribute other (child_node s))).
  { subst listening handlers. rewrite <- Hid, <- Hkids.
    split; [now destruct cleared as [i k [eh ls] kids] |].
    split; [now destruct cleared as [i k [eh ls] kids] |].
    split; [| split].
    - intros type' Hne. rewrite listeners_for_add_other by assumption.
      rewrite <- Hl by assumption. now destruct cleared as [i k [eh ls] kids].
    - intros other Hne. rewrite <- Hs.
      destruct cleared as [i k [eh ls] kids]. unfold stored_handler. cbn.
      rewrite lookup_insert_ne by congruence. destruct eh; [reflexivity |].
      now rewrite lookup_empty.
    - intros other. rewrite <- Ha. now destruct cleared as [i k [eh ls] kids]. }
  destruct Hg as [Hid' [Hkids' [Hl' [Hs' Ha']]]].
  destruct value;
    try (cbn [snd child_node]; repeat split; auto; fail).
  destruct (removeAttribute name listening) as [n |] eqn:Hr; cbn [snd child_node].
  - apply removeAttribute_frame in Hr. destruct Hr as [Rid [Rkids [Rt Ra]]].
    rewrite Rid, Rkids.
    repeat split; auto.
    + intros type' Hne.
      rewrite (EventFacts.listeners_for_target _ _ _ Rt). auto.
    + intros other Hne.
      rewrite (EventFacts.stored_handler_target _ _ _ Rt). auto.
    + intros other Hne. rewrite Ra by assumption. auto.
  - repeat split; auto.
Qed.

Lemma stored_handler_cleared (name type : string) (n : node) :
  stored_handler name
    (match stored_handler name n with
     | Some old => removeEventListener type old n
     | None => n
     end) = stored_handler name n.
Proof.
  destruct (stored_handler name n) eqn:E; [| exact E].
  rewrite <- E. now destruct n as [i k [eh ls] kids].
Qed.

Lemma is_element_cleared (name type : string) (n : node) :
  is_element
    (match stored_handler name n with
     | Some old => removeEventListener type old n
     | None => n
     end) = is_element n.
Proof.
  destruct (stored_handler name n); [| reflexivity].
  now destruct n as [i k [eh ls] kids].
Qed.

(** The two ways a commit of an event memory throws.  On a value that is
    no function the handler stored before stays stored but listens no
    more, and nothing new is bound.  On a function and a node that is no
    element the new handler is stored and listening before
    [removeAttribute] throws. *)
Theorem commitEvent_errors (this : Memory) (component : nat) (value : value)
    (s : event_state) :
  at_most_stored (event_name this) (child_node s) ->
  let name := event_name this in
  let type := substring_from 2 name in
  let result := commitEvent this component value s in
  ((forall r src, value <> VFunction r src) ->
     result.1 = Throw "TypeError: value.bind is not a function"
     /\ next_ref result.2 = next_ref s
     /\ stored_handler name (child_node result.2)
        = stored_handler name (child_node s)
     /\ listeners_for type (child_node result.2) = [])
  /\ ((exists r src, value = VFunction r src) ->
      is_element (child_node s) = false ->
      result.1 = Throw "TypeError: removeAttribute is not a function"
      /\ next_ref result.2 = S (next_ref s)
      /\ stored_handler name (child_node result.2) = Some (next_ref s)
      /\ listeners_for type (child_node result.2) = [next_ref s]).
Proof.
  intros Hinv. cbv zeta. rewrite EventFacts.commitEvent_steps. cbv zeta.
  pose proof (EventFacts.listeners_after_removal _ _ Hinv) as Hcleared.
  set (cleared := match stored_handler _ _ with Some _ => _ | None => _ end) in *.
  split.
  - intros Hnf.
    assert (Hst : stored_handler (event_name this) cleared
                  = stored_handler (event_name this) (child_node s))
      by apply stored_handler_cleared.
    destruct value; try (cbn; repeat split; assumption).
    exfalso. eapply Hnf. reflexivity.
  - intros [r [src ->]] Hne.
    destruct (EventFacts.listening_state (event_name this) (next_ref s)
                (match eventHandlers (node_target cleared) with
                 | Some h => h
                 | None => ∅
                 end) cleared Hcleared) as [Hl Hs].
    assert (Hkind : is_element cleared = false).
    { subst cleared. now rewrite is_element_cleared. }
    destruct cleared as [i [tag attrs | d | d] [eh ls] kids]; try discriminate;
      cbn in *; repeat split; assumption.
Qed.


Lemma commitEvent_errors_witness :
  (commitEvent {| type := "event"; steps := [0; 0]; attribute := None;
                  event := Some "onclick" |} 0 (VFunction 1 "() => 1")
     {| child_node := MoreSamples.listening_text; next_ref := 10 |}).1
  = Throw "TypeError: removeAttribute is not a function"
  /\ listeners_for "click"
       (child_node
          (commitEvent {| type := "event"; steps := [0; 0]; attribute := None;
                          event := Some "onclick" |} 0 (VFunction 1 "() => 1")
             {| child_node := MoreSamples.listening_text; next_ref := 10 |}).2)
     = [10].
Proof.
  assert (Hinv : at_most_stored "onclick" MoreSamples.listening_text).
  { right. exists 4. split; reflexivity. }
  destruct (proj2 (commitEvent_errors
                     {| type := "event"; steps := [0; 0]; attribute := None;
                        event := Some "onclick" |} 0 (VFunction 1 "() => 1")
                     {| child_node := MoreSamples.listening_text; next_ref := 10 |}
                     Hinv)
                  (ex_intro _ 1 (ex_intro _ "() => 1" eq_refl)) eq_refl)
    as [Hthrow [_ [_ Hl]]].
  split; [exact Hthrow | exact Hl].
Defined.

End CommitMore.

(** ** The node a commit addresses *)

Module WalkFacts.
Import Js Dom TreeReadings.

Lemma walk_steps_snoc (front : list nat) (last : nat) (child : option node) :
  walk_steps (front ++ [last]) child
  = match walk_steps front child with
    | Ok (Some n) => Ok (node_children n !! last)
    | Ok None => Throw "TypeError: child is undefined"
    | Throw what => Throw what
    end.
Proof.
  revert child. induction front as [| s rest IH]; intros child.
  - cbn. now destruct child.
  - cbn [app walk_steps]. destruct child as [n |]; [apply IH | reflexivity].
Qed.

(** With two steps or fewer a commit addresses the element itself.  One
    more step at the end of longer steps goes to the child of that index
    of the node addressed before; past the last child the node addressed
    is undefined, without a throw, and a step from undefined throws. *)
Theorem addressed_child_cases (element : node) (steps : list nat) (last : nat) :
  (length steps <= 2 -> addressed_child element steps = Ok (Some element))
  /\ (2 <= length steps ->
      addressed_child element (steps ++ [last])
      = match addressed_child element steps with
        | Ok (Some n) => Ok (node_children n !! last)
        | Ok None => Throw "TypeError: child is undefined"
        | Throw what => Throw what
        end).
Proof.
  unfold addressed_child. split.
  - intros Hlen. rewrite drop_ge by exact Hlen. reflexivity.
  - intros Hlen. rewrite drop_app_le by exact Hlen. apply walk_steps_snoc.
Qed.

End WalkFacts.

(** ** More on the keyed commit *)

Module KeyedMore.
Import Js Dom Memory TreeReadings.

Lemma ids_of_cons (n : node) (l : list node) :
  ids_of (n :: l) = ids_of [n] ++ ids_of l.
Proof.
  unfold ids_of. cbn [List.flat_map]. now rewrite app_nil_r, fmap_app.
Qed.

Lemma ids_of_node (i : nat) (k : node_kind) (t : event_target) (kids : list node) :
  ids_of [Node i k t kids] = i :: ids_of kids.
Proof. unfold ids_of. cbn. now rewrite app_nil_r. Qed.

(** A node that is not in a child list, nor below it, has no siblings
    there. *)
Lemma siblings_in_absent (id : nat) (previous : option nat) (l : list node) :
  id ∉ node_id <$> l -> siblings_in id previous l = None.
Proof.
  revert previous. induction l as [| n rest IH]; intros previous Hout;
    [reflexivity |].
  cbn in *. apply not_elem_of_cons in Hout as [Hne Hout].
  destruct (Nat.eqb_spec (node_id n) id) as [Heq | _]; [congruence |].
  now apply IH.
Qed.

Lemma top_ids_in_ids_of (l : list node) (x : nat) :
  x ∈ node_id <$> l -> x ∈ ids_of l.
Proof.
  induction l as [| n rest IH]; [intros Hx; inversion Hx |].
  rewrite ids_of_cons, fmap_cons. intros Hx.
  apply elem_of_cons in Hx as [-> | Hx].
  - apply elem_of_app. left. destruct n. rewrite ids_of_node.
    apply elem_of_cons. now left.
  - apply elem_of_app. right. now apply IH.
Qed.

Lemma siblings_absent_list (id : nat) (l : list node) :
  Forall (fun n => id ∉ ids_of [n] -> siblings_below id n = None) l ->
  id ∉ ids_of l ->
  siblings_in id None l = None /\ first_some (siblings_below id) l = None.
Proof.
  intros Hall Hout. split.
  - apply siblings_in_absent. intros Hx. apply Hout. now apply top_ids_in_ids_of.
  - induction Hall as [| n rest Hn _ IH]; [reflexivity |].
    rewrite ids_of_cons in Hout. apply not_elem_of_app in Hout as [Hout1 Hout2].
    cbn. rewrite (Hn Hout1). now apply IH.
Qed.

Lemma siblings_below_absent (id : nat) (n : node) :
  id ∉ ids_of [n] -> siblings_below id n = None.
Proof.
  induction n as [i k t kids IH] using node_nested_ind.
  rewrite ids_of_node. intros Hout. apply not_elem_of_cons in Hout as [_ Hout].
  destruct (siblings_absent_list id kids IH Hout) as [E1 E2].
  cbn. now rewrite E1, E2.
Qed.

Lemma siblings_of_absent (id : nat) (d : document) :
  id ∉ node_id <$> nodes d -> siblings_of id d = None.
Proof.
  intros Hout. unfold siblings_of.
  destruct (siblings_absent_list id d) as [E1 E2]; [| exact Hout |].
  - apply Forall_forall. intros n _. apply siblings_below_absent.
  - now rewrite E1, E2.
Qed.

Lemma walk_siblings_null (index : nat) (d : document) :
  walk_siblings index None d = None.
Proof. induction index as [| i IH]; [reflexivity | exact IH]. Qed.

Lemma walk_siblings_absent (index : nat) (child : nat) (d : document) :
  child ∉ node_id <$> nodes d ->
  walk_siblings (S index) (Some child) d = None.
Proof.
  intros Hout. cbn. unfold nextSibling. rewrite (siblings_of_absent _ _ Hout).
  apply walk_siblings_null.
Qed.

(** Removing a node brings no new node into a child list. *)
Lemma remove_ids_list (id : nat) (l : list node) :
  Forall (fun n => forall x,
            x ∈ ids_of (List.filter (is_not id) (List.map (remove_below id) [n])) ->
            x ∈ ids_of [n]) l ->
  forall x,
    x ∈ ids_of (List.filter (is_not id) (List.map (remove_below id) l)) ->
    x ∈ ids_of l.
Proof.
  induction 1 as [| n rest Hn _ IH]; intros x Hx; [exact Hx |].
  rewrite ids_of_cons. apply elem_of_app.
  cbn [List.map List.filter] in *.
  destruct (is_not id (remove_below id n)).
  - rewrite ids_of_cons in Hx. apply elem_of_app in Hx as [Hx | Hx].
    + left. now apply Hn.
    + right. now apply IH.
  - right. now apply IH.
Qed.

Lemma remove_below_ids (id : nat) (n : node) (x : nat) :
  x ∈ ids_of (List.filter (is_not id) (List.map (remove_below id) [n])) ->
  x ∈ ids_of [n].
Proof.
  revert x. induction n as [i k t kids IH] using node_nested_ind. intros x.
  cbn [List.map List.filter remove_below].
  destruct (is_not id _); [| intros Hx; inversion Hx].
  rewrite !ids_of_node. intros Hx. apply elem_of_cons in Hx as [-> | Hx].
  - apply elem_of_cons. now left.
  - apply elem_of_cons. right. now apply (remove_ids_list id kids IH).
Qed.

Lemma remove_ids (id : nat) (d : document) (x : nat) :
  x ∈ node_id <$> nodes (remove id d) -> x ∈ node_id <$> nodes d.
Proof.
  apply (remove_ids_list id d). apply Forall_forall. intros n _ y.
  apply remove_below_ids.
Qed.

Lemma delete_key_ids (d : document) (k : string) (x : nat) :
  x ∈ node_id <$> nodes (delete_key d k) -> x ∈ node_id <$> nodes d.
Proof.
  unfold delete_key. destruct (first_keyed k d); [apply remove_ids | auto].
Qed.

(** One deletion, whatever the key and whatever the host answers to the
    query: no hook is called, and no node comes into the document. *)
Lemma delete_one_shrinks `{Selectors} (k : string) (s : commit_state) :
  trace (delete_one k s).2 = trace s
  /\ forall x : nat,
       x ∈ node_id <$> nodes (doc (delete_one k s).2) ->
       x ∈ node_id <$> nodes (doc s).
Proof.
  unfold delete_one, bind, get, lift, on_doc, modify, ret, throw.
  destruct (querySelector_key k (doc s)) as [[id |] | what]; cbn;
    (split; [reflexivity |]); intros x Hx; try exact Hx.
  now apply remove_ids in Hx.
Qed.

Lemma forEach_delete_one_shrinks `{Selectors} (deleted : list string)
    (s : commit_state) :
  trace (forEach deleted delete_one s).2 = trace s
  /\ forall x : nat,
       x ∈ node_id <$> nodes (doc (forEach deleted delete_one s).2) ->
       x ∈ node_id <$> nodes (doc s).
Proof.
  revert s. induction deleted as [| k ks IH]; intros s; [now split |].
  cbn [forEach]. unfold bind.
  destruct (delete_one_shrinks k s) as [Htrace Hids].
  destruct (delete_one k s) as [[[] | what] s1]; cbn [fst snd] in *.
  - destruct (IH s1) as [Htrace' Hids']. split; [congruence |].
    intros x Hx. auto.
  - now split.
Qed.

(** A key that breaks the selector makes the deletion throw, and the
    document stays as it was. *)
Lemma broken_not_plain (k : string) :
  broken_key k = true -> plain_key k = false.
Proof.
  induction k as [| c rest IH]; [discriminate |]. cbn [broken_key plain_key].
  destruct (Ascii.eqb c "'") eqn:Hc.
  - apply Ascii.eqb_eq in Hc. subst c. reflexivity.
  - intros Hb. apply andb_prop in Hb as [_ Hb]. rewrite (IH Hb).
    apply andb_false_r.
Qed.

Lemma delete_one_broken `{Selectors} (k : string) (s : commit_state) :
  broken_key k = true ->
  delete_one k s = (Throw "SyntaxError: not a valid selector", s).
Proof.
  intros Hbroken. unfold delete_one, bind, get, lift, querySelector_key.
  now rewrite (broken_not_plain k Hbroken), Hbroken.
Qed.

(** The deletions of a commit call no hook, and every node in the document
    afterwards was there before, whether they return or throw and whatever
    the host answers to a query.  They return when every key is plain
    text; they stop with a SyntaxError at the first key that breaks the
    selector, with the keys before it deleted and the later ones kept. *)
Theorem deletions_only_remove `{Selectors} (deleted : list string)
    (s : commit_state) :
  let after := forEach deleted delete_one s in
  trace after.2 = trace s
  /\ (forall x : nat,
        x ∈ node_id <$> nodes (doc after.2) -> x ∈ node_id <$> nodes (doc s))
  /\ (Forall (fun k => plain_key k = true) deleted ->
      after = (Ok tt, {| doc := foldl delete_key (doc s) deleted;
                         trace := trace s |}))
  /\ (forall (front : list string) (k : string) (back : list string),
        deleted = front ++ k :: back ->
        Forall (fun k => plain_key k = true) front ->
        broken_key k = true ->
        after = (Throw "SyntaxError: not a valid selector",
                 {| doc := foldl delete_key (doc s) front;
                    trace := trace s |})).
Proof.
  cbv zeta. destruct (forEach_delete_one_shrinks deleted s) as [Htrace Hids].
  split; [exact Htrace | split; [exact Hids | split]].
  - apply KeyedFacts.forEach_delete_one.
  - intros front k back -> Hfront Hbroken. clear Htrace Hids.
    revert s. induction Hfront as [| k0 front Hk0 _ IH]; intros s.
    + cbn [app forEach foldl]. unfold bind.
      rewrite (delete_one_broken k s Hbroken). now destruct s.
    + cbn [app forEach foldl]. unfold bind.
      rewrite (KeyedFacts.delete_one_delete_key k0 s Hk0).
      apply (IH {| doc := delete_key (doc s) k0; trace := trace s |}).
Qed.

Lemma deletions_only_remove_witness :
  forEach ["x"; "it's"; "y"] (@delete_one Samples.sample_selectors)
    {| doc := Samples.two_lists; trace := [] |}
  = (Throw "SyntaxError: not a valid selector",
     {| doc := foldl delete_key Samples.two_lists ["x"]; trace := [] |}).
Proof.
  exact (proj2 (proj2 (proj2
           (@deletions_only_remove Samples.sample_selectors ["x"; "it's"; "y"]
              {| doc := Samples.two_lists; trace := [] |})))
           ["x"] "it's" ["y"] eq_refl
           (@List.Forall_cons _ _ "x" [] eq_refl (@List.Forall_nil _ _))
           eq_refl).
Defined.

Section WithUtil.
Context `{Util} `{Selectors}.

(** When the walk from the anchor runs out of siblings, an addition
    inserts nothing: the document stays as it was, and the [created] hook
    of the item is called all the same. *)
Theorem insert_one_runs_out (child : nat) (oldMapped newMapped : list item)
    (object : addition) (newMappedItem : item) (s : commit_state) :
  newMapped !! index object = Some newMappedItem ->
  is_element (element newMappedItem) = true ->
  walk_siblings (index object) (Some child) (doc s) = None ->
  insert_one child oldMapped newMapped object s
  = (Ok tt,
     {| doc := doc s;
        trace := trace s ++ (if created newMappedItem
                             then [Created (item_ref newMappedItem)]
                             else []) |}).
Proof.
  intros Hitem Helem Hwalk. unfold insert_one. rewrite Hitem.
  destruct (element newMappedItem) as [i [tag attrs | |] t kids];
    try discriminate.
  unfold bind, lift, get, ret, emit, modify. cbn. rewrite Hwalk.
  destruct s as [d tr].
  destruct (Nat.leb _ _), (created newMappedItem); cbn;
    now rewrite ?app_nil_r.
Qed.

(** Once the anchor is out of the document, as after the deletion of its
    own key, no addition at an index of 1 or more changes the document,
    whether it returns or throws. *)
Theorem insert_one_after_anchor_removed (child : nat)
    (oldMapped newMapped : list item) (object : addition) (s : commit_state) :
  child ∉ node_id <$> nodes (doc s) ->
  1 <= index object ->
  doc (insert_one child oldMapped newMapped object s).2 = doc s
  /\ forall d : document, child ∉ node_id <$> nodes (remove child d).
Proof.
  intros Hout Hidx. split; [| intros d; apply KeyedFacts.remove_gone].
  destruct (index object) as [| i] eqn:Ei; [lia |].
  unfold insert_one. rewrite Ei.
  destruct (newMapped !! S i) as [it |]; [| reflexivity].
  destruct (setAttribute "key" (key object) (element it)) as [keyed |];
    [| reflexivity].
  unfold bind, lift, get, ret, emit, modify. cbn [fst snd].
  rewrite (walk_siblings_absent i child (doc s) Hout).
  destruct (Nat.leb _ _), (created it); reflexivity.
Qed.

(** A commit whose keys to delete are plain text and whose first addition
    has no item at its index, as when [mapped] is shorter than [keys],
    throws after the deletions: the keys deleted stay deleted, and nothing
    is added. *)
Theorem commitKeyedArray_throws_after_deletions (child : nat)
    (oldValue value : KeyedArray) (s : commit_state)
    (object : addition) (later : list addition) :
  Forall (fun k => plain_key k = true)
    (deletions (getArrayDifferences (keys oldValue) (keys value))) ->
  additions (getArrayDifferences (keys oldValue) (keys value)) = object :: later ->
  mapped value !! index object = None ->
  commitKeyedArray_incremental child oldValue value s
  = (Throw "TypeError: newMappedItem is undefined",
     {| doc := foldl delete_key (doc s)
                 (deletions (getArrayDifferences (keys oldValue) (keys value)));
        trace := trace s |}).
Proof.
  intros Hplain Hadd Hnone. unfold commitKeyedArray_incremental. cbv zeta.
  unfold bind at 1. rewrite (KeyedFacts.forEach_delete_one _ s Hplain), Hadd.
  cbn [forEach]. unfold bind at 1, insert_one. now rewrite Hnone.
Qed.

End WithUtil.

Lemma insert_one_runs_out_witness :
  @insert_one Samples.sample_util 2 (mapped Samples.list_a)
    (mapped Samples.list_a_b) {| key := "b"; index := 1 |}
    {| doc := Samples.one_item_list; trace := [] |}
  = (Ok tt, {| doc := Samples.one_item_list; trace := [] ++ [Created 103] |}).
Proof.
  exact (@insert_one_runs_out Samples.sample_util 2 (mapped Samples.list_a)
           (mapped Samples.list_a_b) {| key := "b"; index := 1 |}
           (Samples.item_of (Samples.plain_element 3 "li" []) true)
           {| doc := Samples.one_item_list; trace := [] |}
           eq_refl eq_refl eq_refl).
Defined.

Lemma insert_one_after_anchor_removed_witness :
  doc (@insert_one Samples.sample_util 2 (mapped Samples.list_a)
         (mapped Samples.list_a_b) {| key := "b"; index := 1 |}
         {| doc := remove 2 Samples.one_item_list_then_text; trace := [] |}).2
  = remove 2 Samples.one_item_list_then_text.
Proof.
  refine (proj1 (@insert_one_after_anchor_removed Samples.sample_util 2
                   (mapped Samples.list_a) (mapped Samples.list_a_b)
                   {| key := "b"; index := 1 |}
                   {| doc := remove 2 Samples.one_item_list_then_text;
                      trace := [] |} _ _)).
  - apply KeyedFacts.remove_gone.
  - cbn. lia.
Defined.

Lemma commitKeyedArray_throws_after_deletions_witness :
  @commitKeyedArray_incremental Samples.sample_util Samples.sample_selectors 5
    Samples.second_list_old
    {| items := []; keys := ["y"; "z"];
       mapped := [Samples.item_of (Samples.keyed_element 6 "li" "y") false] |}
    {| doc := Samples.two_lists; trace := [] |}
  = (Throw "TypeError: newMappedItem is undefined",
     {| doc := foldl delete_key Samples.two_lists ["x"]; trace := [] |}).
Proof.
  exact (@commitKeyedArray_throws_after_deletions Samples.sample_util
           Samples.sample_selectors 5 Samples.second_list_old
           {| items := []; keys := ["y"; "z"];
              mapped := [Samples.item_of (Samples.keyed_element 6 "li" "y") false] |}
           {| doc := Samples.two_lists; trace := [] |}
           {| key := "z"; index := 1 |} []
           (@List.Forall_cons _ _ "x" [] eq_refl (@List.Forall_nil _ _))
           eq_refl eq_refl).
Defined.

End KeyedMore.

(** ** Slot discovery *)

Module DiscoveryFacts.
Import Js Parser Discovery.

Lemma append_cons (c : ascii) (s t : string) :
  String c s +:+ t = String c (s +:+ t).
Proof. reflexivity. Qed.

Lemma replace_first_unfold (pattern replacement s : string) :
  replace_first pattern replacement s
  = if String.prefix pattern s
    then replacement +:+ Memory.substring_from (String.length pattern) s
    else match s with
         | EmptyString => ""
         | String c rest => String c (replace_first pattern replacement rest)
         end.
Proof. destruct s; reflexivity. Qed.

Lemma prefix_append (p x : string) : String.prefix p (p +:+ x) = true.
Proof.
  induction p as [| c p IH]; [now destruct x |].
  rewrite append_cons. cbn. destruct (ascii_dec c c); [exact IH | congruence].
Qed.

Lemma substring_all (x : string) : String.substring 0 (String.length x) x = x.
Proof. induction x as [| c x IH]; [reflexivity |]. cbn. now rewrite IH. Qed.

Lemma substring_from_append (p x : string) :
  Memory.substring_from (String.length p) (p +:+ x) = x.
Proof.
  unfold Memory.substring_from. induction p as [| c p IH].
  - cbn. rewrite Nat.sub_0_r. apply substring_all.
  - rewrite append_cons. cbn [String.length String.substring].
    exact IH.
Qed.

Lemma replace_first_at_start (p x : string) :
  replace_first p "" (p +:+ x) = x.
Proof.
  rewrite replace_first_unfold, prefix_append, substring_from_append.
  reflexivity.
Qed.

Lemma prefix_cons (a b : ascii) (p s : string) :
  String.prefix (String a p) (String b s)
  = if ascii_dec a b then String.prefix p s else false.
Proof. reflexivity. Qed.

Lemma without_cons (c x : ascii) (s : string) :
  without c (String x s) = true -> x <> c /\ without c s = true.
Proof.
  cbn [without]. intros Hw. apply andb_true_iff in Hw as [Hx Hw].
  split; [| exact Hw]. intros ->. now rewrite Ascii.eqb_refl in Hx.
Qed.

(** Before the closing [-->] of a text without [>] there is no other. *)
Lemma no_earlier_close (m : string) :
  without ">" m = true -> String.prefix "-->" (m +:+ "-->") = true -> m = "".
Proof.
  intros Hw.
  destruct m as [| c1 [| c2 [| c3 r]]]; [reflexivity | | |];
    rewrite ?append_cons, ?prefix_cons;
    repeat match goal with
           | |- context [ascii_dec ?a ?b] => destruct (ascii_dec a b)
           end; try discriminate.
  apply without_cons in Hw as [_ Hw]. apply without_cons in Hw as [_ Hw].
  apply without_cons in Hw as [Hw _]. congruence.
Qed.

Lemma replace_first_at_end (m : string) :
  without ">" m = true -> replace_first "-->" "" (m +:+ "-->") = m.
Proof.
  induction m as [| c r IH]; intros Hw; [reflexivity |].
  rewrite replace_first_unfold.
  destruct (String.prefix "-->" (String c r +:+ "-->")) eqn:Hp.
  - apply (no_earlier_close _ Hw) in Hp. discriminate.
  - rewrite append_cons. f_equal. apply IH.
    cbn in Hw. now apply andb_true_iff in Hw as [_ Hw].
Qed.

Section WithRegistry.
Context `{Markup} `{Registry}.

(** When the marker is a comment [<!--m-->] whose text [m] has no [>],
    [parseNode] makes one node memory, with the steps it is given, for a
    node whose text is [m], and none for any other text. *)
Theorem parseNode_recognizes_marker (m textContent nodeName : string)
    (parentElement : option string) (steps : list nat) :
  nodeMarker = "<!--" +:+ m +:+ "-->" ->
  without ">" m = true ->
  marker_check = m
  /\ parseNode textContent nodeName parentElement steps
     = if String.eqb textContent m
       then [{| config_type := "node";
                config_steps := steps;
                isComponentType :=
                  customElements_defined nodeName
                  || match parentElement with
                     | Some parent => customElements_defined parent
                     | None => false
                     end;
                isEvent := false;
                config_attribute := None |}]
       else [].
Proof.
  intros Hmarker Hw.
  assert (Hcheck : marker_check = m).
  { unfold marker_check. rewrite Hmarker, replace_first_at_start.
    now apply replace_first_at_end. }
  split; [exact Hcheck |].
  unfold parseNode. rewrite Hcheck.
  now destruct (String.eqb textContent m).
Qed.

Lemma push_dynamic_from (name : string) (steps : list nat) (defined : bool)
    (ret : list memory_config) (parts : list string) :
  push_dynamic name steps defined ret parts
  = ret ++ ((fun _ => attribute_memory name steps defined)
              <$> List.filter (fun item => String.eqb item nodeMarker) parts).
Proof.
  revert ret. induction parts as [| item rest IH]; intros ret; cbn.
  - now rewrite app_nil_r.
  - rewrite IH. destruct (String.eqb item nodeMarker); [| reflexivity].
    cbn. now rewrite <- app_assoc.
Qed.

(** The memories of one attribute. *)
Lemma parseAttributes_from_each (steps : list nat) (defined : bool)
    (ret : list memory_config) (attrs : list (string * string)) :
  parseAttributes_from steps defined ret attrs
  = ret ++ List.flat_map
             (fun a => if marker_expression_matches a.2
                       then push_dynamic a.1 steps defined []
                              (value_parts a.1 a.2)
                       else []) attrs.
Proof.
  revert ret. induction attrs as [| [name value] rest IH]; intros ret; cbn.
  - now rewrite app_nil_r.
  - destruct (marker_expression_matches value); cbn.
    + rewrite IH, (push_dynamic_from _ _ _ ret), (push_dynamic_from _ _ _ []).
      cbn. now rewrite <- app_assoc.
    + apply IH.
Qed.

Lemma parseAttributes_member (node : element_view) (steps : list nat)
    (m : memory_config) :
  m ∈ parseAttributes node steps ->
  config_type m = "attribute"
  /\ config_steps m = steps
  /\ isComponentType m = customElements_defined (nodeName node)
  /\ exists (attrs : list (string * string)) (name value : string),
       attributes node = Some attrs
       /\ (name, value) ∈ attrs
       /\ config_attribute m = Some name
       /\ isEvent m = String.prefix "on" name
       /\ marker_expression_matches value = true
       /\ nodeMarker ∈ value_parts name value.
Proof.
  unfold parseAttributes.
  destruct (attributes node) as [attrs |]; [| intros Hm; inversion Hm].
  rewrite parseAttributes_from_each. cbn [app].
  intros Hm. apply list_elem_of_In, List.in_flat_map in Hm.
  destruct Hm as [[name value] [Hin Hm]]. cbn [fst snd] in Hm.
  destruct (marker_expression_matches value) eqn:Hmatch; [| destruct Hm].
  rewrite push_dynamic_from in Hm. cbn [app] in Hm.
  apply list_elem_of_In, list_elem_of_fmap in Hm. destruct Hm as [part [-> Hpart]].
  apply list_elem_of_In, List.filter_In in Hpart. destruct Hpart as [Hpart Heq].
  apply String.eqb_eq in Heq. subst part.
  repeat split; try reflexivity.
  exists attrs, name, value. repeat split; try assumption.
  - now apply list_elem_of_In.
  - apply list_elem_of_In. exact Hpart.
Qed.

(** Every memory [parseAttributes] makes is of type [attribute], carries
    the steps given and the name of an attribute of the node whose value
    the expression matches and has the marker as one of its parts; it is
    marked as an event exactly when that name starts with [on]. *)
Theorem parseAttributes_memories (node : element_view) (steps : list nat)
    (m : memory_config) :
  m ∈ parseAttributes node steps ->
  config_type m = "attribute"
  /\ config_steps m = steps
  /\ isComponentType m = customElements_defined (nodeName node)
  /\ exists (attrs : list (string * string)) (name value : string),
       attributes node = Some attrs
       /\ (name, value) ∈ attrs
       /\ config_attribute m = Some name
       /\ isEvent m = String.prefix "on" name
       /\ marker_expression_matches value = true
       /\ nodeMarker ∈ value_parts name value.
Proof. apply parseAttributes_member. Qed.

Lemma memorize_over_visits (ret : list memory_config)
    (visits : list (visited * list nat)) :
  memorize_over ret visits
  = ret ++ List.flat_map (fun v => memorize_visit v.1 v.2) visits.
Proof.
  revert ret. induction visits as [| [node steps] rest IH]; intros ret; cbn.
  - now rewrite app_nil_r.
  - rewrite IH. now rewrite <- app_assoc.
Qed.

(** Every memory [memorize] returns comes from an element or a comment
    [traverse] visited and carries the steps of that visit; its type is
    [attribute] for an element and [node] for a comment, so [_repaint]
    sets the force flag exactly for the memories found at comments. *)
Theorem memorize_memories (visits : list (visited * list nat))
    (m : memory_config) :
  m ∈ memorize_over [] visits ->
  exists (node : visited) (steps : list nat),
    (node, steps) ∈ visits
    /\ config_steps m = steps
    /\ ((exists e, node = VisitedElement e /\ config_type m = "attribute")
        \/ (exists text name parent,
              node = VisitedComment text name parent
              /\ config_type m = "node"
              /\ text = marker_check)).
Proof.
  rewrite memorize_over_visits. cbn [app].
  intros Hm. apply list_elem_of_In, List.in_flat_map in Hm.
  destruct Hm as [[node steps] [Hin Hm]]. cbn [fst snd] in Hm.
  exists node, steps. split; [now apply list_elem_of_In |].
  destruct node as [e | text name parent | ty]; cbn [memorize_visit] in Hm.
  - apply list_elem_of_In, parseAttributes_member in Hm.
    destruct Hm as [Ht [Hs _]]. split; [exact Hs |]. left. now exists e.
  - unfold parseNode in Hm.
    destruct (String.eqb text marker_check) eqn:Heq; cbn [negb] in Hm;
      [| destruct Hm].
    destruct Hm as [<- | []]. split; [reflexivity |]. right.
    exists text, name, parent. repeat split. now apply String.eqb_eq.
  - destruct Hm.
Qed.

Lemma split_without (sep : ascii) (s : string) :
  without sep s = true -> split sep s = [s].
Proof.
  induction s as [| c rest IH]; [reflexivity |].
  intros Hw. apply without_cons in Hw as [Hne Hw].
  cbn [split]. rewrite (IH Hw).
  destruct (Ascii.eqb_spec c sep); [contradiction | reflexivity].
Qed.

(** Where no attribute value holds its separator (the space, [;] for
    [style]), an attribute gets a memory only when its whole value is the
    marker: a marker with text around it in the value gives no memory. *)
Theorem parseAttributes_whole_values (node : element_view)
    (attrs : list (string * string)) (steps : list nat) :
  attributes node = Some attrs ->
  Forall (fun a => without (separator a.1) a.2 = true) attrs ->
  parseAttributes node steps
  = List.flat_map
      (fun a => if marker_expression_matches a.2
                   && String.eqb a.2 nodeMarker
                   && Nat.ltb 0 (String.length a.2)
                then [attribute_memory a.1 steps
                        (customElements_defined (nodeName node))]
                else []) attrs.
Proof.
  intros Hattrs Hall. unfold parseAttributes. rewrite Hattrs.
  rewrite parseAttributes_from_each. cbn [app]. clear Hattrs.
  induction Hall as [| [name value] rest Hw _ IH]; [reflexivity |].
  cbn [List.flat_map fst snd] in *. rewrite IH. f_equal.
  destruct (marker_expression_matches value); [| reflexivity].
  unfold value_parts, separator in *.
  assert (Hsplit : (if String.eqb name "style" then split ";" value
                    else split " " value) = [value]).
  { destruct (String.eqb name "style"); now apply split_without. }
  rewrite Hsplit. cbn [List.filter andb].
  destruct (Nat.ltb 0 (String.length value)); cbn [push_dynamic];
    destruct (String.eqb value nodeMarker); reflexivity.
Qed.

End WithRegistry.

Lemma parseNode_recognizes_marker_witness :
  @parseNode Samples.sample_markup MoreSamples.sample_registry
    "{{m-0}}" "#comment" (Some "round-button") [0; 1]
  = [{| config_type := "node"; config_steps := [0; 1];
        isComponentType := true; isEvent := false;
        config_attribute := None |}].
Proof.
  exact (proj2 (@parseNode_recognizes_marker Samples.sample_markup
                  MoreSamples.sample_registry "{{m-0}}" "{{m-0}}" "#comment"
                  (Some "round-button") [0; 1] eq_refl eq_refl)).
Defined.

Lemma parseAttributes_memories_witness :
  isEvent (@attribute_memory "onclick" [0; 2] false) = true.
Proof.
  assert (Hin : @attribute_memory "onclick" [0; 2] false
                ∈ @parseAttributes Samples.sample_markup
                    MoreSamples.sample_registry MoreSamples.sample_link [0; 2]).
  { apply list_elem_of_In. vm_compute. right. left. reflexivity. }
  destruct (@parseAttributes_memories Samples.sample_markup
              MoreSamples.sample_registry MoreSamples.sample_link [0; 2]
              _ Hin) as [_ [_ [_ [attrs [name [value [_ [_ [Hn [He _]]]]]]]]]].
  injection Hn as <-. exact He.
Defined.

Lemma parseAttributes_whole_values_witness :
  @parseAttributes Samples.sample_markup MoreSamples.sample_registry
    MoreSamples.sample_button [0; 3]
  = [attribute_memory "click" [0; 3] true].
Proof.
  rewrite (@parseAttributes_whole_values Samples.sample_markup
             MoreSamples.sample_registry MoreSamples.sample_button
             [("title", "Go"); ("click", "<!--{{m-0}}-->");
              ("href", "/user/<!--{{m-0}}-->")] [0; 3] eq_refl).
  - reflexivity.
  - repeat constructor.
Defined.


Lemma memorize_memories_witness :
  exists (node : visited) (steps : list nat),
    (node, steps)
    ∈ [(VisitedElement MoreSamples.sample_link, [0; 0]);
       (VisitedOther 3, [0; 0; 0]);
       (VisitedComment "{{m-0}}" "#comment" (Some "a"), [0; 0; 1])]
    /\ steps = [0; 0; 1].
Proof.
  assert (Hin : {| config_type := "node"; config_steps := [0; 0; 1];
                   isComponentType := false; isEvent := false;
                   config_attribute := None |}
                ∈ @memorize_over Samples.sample_markup MoreSamples.sample_registry []
                    [(VisitedElement MoreSamples.sample_link, [0; 0]);
                     (VisitedOther 3, [0; 0; 0]);
                     (VisitedComment "{{m-0}}" "#comment" (Some "a"), [0; 0; 1])]).
  { apply list_elem_of_In. vm_compute. right. right. left. reflexivity. }
  destruct (@memorize_memories Samples.sample_markup MoreSamples.sample_registry
              _ _ Hin) as [node [steps [Hv [Hs _]]]].
  exists node, steps. split; [exact Hv | now rewrite <- Hs].
Defined.

End DiscoveryFacts.

(** ** Repaint *)

Module RepaintFacts.
Import Js Parser Repaint.

Section Deps.
Variable page : Type.
Variable pointer : Type.
Variable changed : value -> value -> bool -> M page bool.
Variable step : pointer -> list nat -> M page pointer.
Variable commit : memory_config -> pointer -> pointer -> value -> value -> M page unit.

#[local] Abbreviation repaint_one := (repaint_one page pointer changed step commit).
#[local] Abbreviation repaint_from := (repaint_from page pointer changed step commit).
#[local] Abbreviation _repaint := (_repaint page pointer changed step commit).

Lemma bind_run {A B : Type} (c : M page A) (k : A -> M page B) (st : page) :
  bind c k st = match c st with
                | (Ok a, st') => k a st'
                | (Throw what, st') => (Throw what, st')
                end.
Proof. reflexivity. Qed.

Lemma repaint_from_app (element : pointer) (isOTT : bool)
    (oldValues newValues : list value) (i : nat)
    (front back : list memory_config) (st : page) :
  repaint_from element isOTT oldValues newValues i (front ++ back) st
  = match repaint_from element isOTT oldValues newValues i front st with
    | (Ok _, st') =>
        repaint_from element isOTT oldValues newValues (i + length front) back st'
    | (Throw what, st') => (Throw what, st')
    end.
Proof.
  revert i st. induction front as [| mem rest IH]; intros i st.
  - cbn. now rewrite Nat.add_0_r.
  - cbn [app Repaint.repaint_from length]. rewrite !bind_run.
    destruct (repaint_one element isOTT oldValues newValues i mem st)
      as [[[] | what] st1]; [| reflexivity].
    rewrite IH. now rewrite Nat.add_succ_r.
Qed.

(** When [step] only reads the page and [changed] answers false for every
    slot without touching the page, a repaint returns and leaves the page
    as it was: no memory is committed. *)
Theorem repaint_unchanged_is_silent (element : pointer) (isOTT : bool)
    (memories : list memory_config) (oldValues newValues : list value)
    (st : page) :
  (forall steps st', exists p, step element steps st' = (Ok p, st')) ->
  (forall i mem st',
      memories !! i = Some mem ->
      changed (at_index oldValues i) (at_index newValues i)
        (String.eqb (config_type mem) "node") st' = (Ok false, st')) ->
  _repaint element isOTT memories oldValues newValues st = (Ok tt, st).
Proof.
  intros Hstep Hchanged. unfold Repaint._repaint.
  assert (Hgen : forall i,
             (forall j mem st', memories !! j = Some mem ->
                changed (at_index oldValues (i + j)) (at_index newValues (i + j))
                  (String.eqb (config_type mem) "node") st' = (Ok false, st')) ->
             repaint_from element isOTT oldValues newValues i memories st
             = (Ok tt, st)).
  { clear Hchanged. induction memories as [| mem rest IH]; intros i Hc;
      [reflexivity |].
    cbn [Repaint.repaint_from]. rewrite bind_run.
    unfold Repaint.repaint_one. rewrite bind_run.
    assert (Hp : exists p, (if Bool.eqb isOTT true then ret element
                            else step element (config_steps mem)) st = (Ok p, st)).
    { destruct (Bool.eqb isOTT true); [now exists element | apply Hstep]. }
    destruct Hp as [p ->]. rewrite bind_run.
    specialize (Hc 0 mem st eq_refl) as Hc0. rewrite Nat.add_0_r in Hc0.
    rewrite Hc0. cbn. apply IH. intros j mem' st' Hj.
    rewrite Nat.add_succ_comm. now apply Hc. }
  apply Hgen. intros j mem st' Hj. now apply Hchanged.
Qed.

(** The first slot whose turn throws ends the repaint: the memories after
    it, whatever they are, are not looked at, and the page stays as that
    slot left it. *)
Theorem repaint_stops_at_first_throw (element : pointer) (isOTT : bool)
    (oldValues newValues : list value)
    (front : list memory_config) (mem : memory_config)
    (back : list memory_config) (st st1 st2 : page) (what : string) :
  _repaint element isOTT front oldValues newValues st = (Ok tt, st1) ->
  repaint_one element isOTT oldValues newValues (length front) mem st1
  = (Throw what, st2) ->
  _repaint element isOTT (front ++ mem :: back) oldValues newValues st
  = (Throw what, st2).
Proof.
  unfold Repaint._repaint. intros Hfront Hmem.
  rewrite repaint_from_app, Hfront. cbn [Nat.add Repaint.repaint_from].
  rewrite bind_run. now rewrite Hmem.
Qed.

(** With a [changed] that answers true under the force flag, as
    [Memory.changed] does: in any list of memories, once the memories
    before it have returned, a memory of type [node] is committed as soon
    as [step] has found its node, whatever the old and the new values
    are; a memory of another type is compared with the flag off and,
    when the answer is false, is not committed, the repaint going on
    with the next memory. *)
Theorem repaint_commits_node_slots (element : pointer) (isOTT : bool)
    (oldValues newValues : list value)
    (front : list memory_config) (mem : memory_config)
    (back : list memory_config) (st st1 : page) :
  (forall x y st', changed x y true st' = (Ok true, st')) ->
  _repaint element isOTT front oldValues newValues st = (Ok tt, st1) ->
  let i := length front in
  let locate := if Bool.eqb isOTT true then ret element
                else step element (config_steps mem) in
  (config_type mem = "node" ->
   _repaint element isOTT (front ++ mem :: back) oldValues newValues st
   = (pointer <- locate ;;
      commit mem element pointer (at_index oldValues i) (at_index newValues i) ;;;
      repaint_from element isOTT oldValues newValues (S i) back) st1)
  /\ (config_type mem <> "node" ->
      forall (p : pointer) (st2 st3 : page),
        locate st1 = (Ok p, st2) ->
        changed (at_index oldValues i) (at_index newValues i) false st2
        = (Ok false, st3) ->
        _repaint element isOTT (front ++ mem :: back) oldValues newValues st
        = repaint_from element isOTT oldValues newValues (S i) back st3).
Proof.
  intros Hforce Hfront. cbv zeta. unfold Repaint._repaint in *.
  rewrite repaint_from_app, Hfront. cbn [Nat.add Repaint.repaint_from].
  rewrite !bind_run. unfold Repaint.repaint_one. rewrite !bind_run.
  split.
  - intros Hnode.
    destruct ((if Bool.eqb isOTT true then ret element
               else step element (config_steps mem)) st1)
      as [[p | what] st2]; [| reflexivity].
    rewrite !bind_run, Hnode.
    replace (String.eqb "node" "node") with true by reflexivity.
    rewrite Hforce. reflexivity.
  - intros Hother p st2 st3 Hlocate Hsame. rewrite Hlocate, bind_run.
    replace (String.eqb (config_type mem) "node") with false
      by (symmetry; now apply String.eqb_neq).
    rewrite Hsame. reflexivity.
Qed.

End Deps.

Lemma repaint_unchanged_is_silent_witness :
  Repaint._repaint (list (list nat)) (list nat) MoreSamples.sample_changed
    MoreSamples.sample_step MoreSamples.sample_commit [] false
    [MoreSamples.sample_attribute_memory [0; 0; 1]]
    [VString "Go"] [VString "Go"] []
  = (Ok tt, []).
Proof.
  apply repaint_unchanged_is_silent.
  - intros steps st'. now exists steps.
  - intros i mem st' Hi. destruct i as [| i]; [| destruct i; discriminate].
    injection Hi as <-. reflexivity.
Defined.

Lemma repaint_stops_at_first_throw_witness :
  Repaint._repaint (list (list nat)) (list nat) MoreSamples.sample_changed
    MoreSamples.sample_step MoreSamples.sample_commit [] false
    ([MoreSamples.sample_attribute_memory [0; 0; 1]]
     ++ MoreSamples.sample_attribute_memory [0; 0; 2]
     :: [MoreSamples.sample_attribute_memory [0; 0; 3]])
    [VString "a"; VString "b"; VString "c"]
    [VString "A"; VUndefined; VString "C"] []
  = (Throw "TypeError: newv is undefined", [[0; 0; 1]]).
Proof.
  exact (repaint_stops_at_first_throw (list (list nat)) (list nat)
           MoreSamples.sample_changed MoreSamples.sample_step
           MoreSamples.sample_commit [] false
           [VString "a"; VString "b"; VString "c"]
           [VString "A"; VUndefined; VString "C"]
           [MoreSamples.sample_attribute_memory [0; 0; 1]]
           (MoreSamples.sample_attribute_memory [0; 0; 2])
           [MoreSamples.sample_attribute_memory [0; 0; 3]]
           [] [[0; 0; 1]] [[0; 0; 1]] "TypeError: newv is undefined"
           eq_refl eq_refl).
Defined.

Lemma repaint_commits_node_slots_witness :
  Repaint._repaint (list (list nat)) (list nat) MoreSamples.sample_changed
    MoreSamples.sample_step MoreSamples.sample_commit [] false
    ([MoreSamples.sample_attribute_memory [0; 0; 1]]
     ++ MoreSamples.sample_node_memory [0; 0; 2]
     :: [MoreSamples.sample_attribute_memory [0; 0; 3]])
    [VString "a"; VString "same"; VString "c"]
    [VString "a"; VString "same"; VString "c"] []
  = (Ok tt, [[0; 0; 2]]).
Proof.
  exact (proj1 (repaint_commits_node_slots (list (list nat)) (list nat)
                  MoreSamples.sample_changed MoreSamples.sample_step
                  MoreSamples.sample_commit [] false
                  [VString "a"; VString "same"; VString "c"]
                  [VString "a"; VString "same"; VString "c"]
                  [MoreSamples.sample_attribute_memory [0; 0; 1]]
                  (MoreSamples.sample_node_memory [0; 0; 2])
                  [MoreSamples.sample_attribute_memory [0; 0; 3]]
                  [] [] (fun x y st' => eq_refl) eq_refl) eq_refl).
Defined.

End RepaintFacts.

(** ** More on templates *)

Module ParserMore.
Import Js Parser.

Lemma cut_last_spec (c : ascii) (s before after : string) :
  AttributeSample.cut_last c s = Some (before, after) ->
  s = before +:+ String c after.
Proof.
  revert before. induction s as [| x rest IH]; intros before; [discriminate |].
  cbn. destruct (AttributeSample.cut_last c rest) as [[b a] |].
  - intros [= <- <-]. now rewrite (IH b eq_refl).
  - destruct (Ascii.eqb_spec x c) as [-> |]; [| discriminate].
    now intros [= <- <-].
Qed.

Lemma cut_first_spec (c : ascii) (s before after : string) :
  AttributeSample.cut_first c s = Some (before, after) ->
  s = before +:+ String c after.
Proof.
  revert before. induction s as [| x rest IH]; intros before; [discriminate |].
  cbn. destruct (Ascii.eqb_spec x c) as [-> |].
  - now intros [= <- <-].
  - destruct (AttributeSample.cut_first c rest) as [[b a] |]; [| discriminate].
    intros [= <- <-]. now rewrite (IH b eq_refl).
Qed.

Lemma substring_front (b x : string) :
  String.substring 0 (String.length b) (b +:+ x) = b.
Proof.
  induction b as [| c b IH]; [now destruct x |].
  change (String c b +:+ x) with (String c (b +:+ x)). cbn. now rewrite IH.
Qed.

(** The sample expression answers the end of the segment, cut in three. *)
Lemma attribute_exec_tiles (str : string) (m : regex_match) :
  AttributeSample.attribute_exec str = Some m ->
  String.substring 0 (match_index m) str
  +:+ group1 m +:+ group2 m +:+ group3 m = str.
Proof.
  unfold AttributeSample.attribute_exec.
  destruct (AttributeSample.cut_last " " str) as [[before tail] |] eqn:Hl;
    [| discriminate].
  destruct (AttributeSample.cut_first "=" tail) as [[name opened] |] eqn:Hf;
    [| discriminate].
  intros [= <-]. cbn [match_index group1 group2 group3].
  apply cut_last_spec in Hl. apply cut_first_spec in Hf. subst.
  now rewrite substring_front.
Qed.

Section WithMarkup.
Context `{Markup}.

Lemma concat_with_marker (front : list string) (final : string) :
  String.concat "" (List.map (fun s => s +:+ nodeMarker) front) +:+ final
  = String.concat nodeMarker (front ++ [final]).
Proof.
  induction front as [| s rest IH]; [reflexivity |].
  cbn [List.map app].
  destruct rest as [| s' rest'].
  - cbn. now rewrite ParserFacts.append_assoc.
  - change (String.concat "" ((s +:+ nodeMarker)
              :: List.map (fun s => s +:+ nodeMarker) (s' :: rest')))
      with ((s +:+ nodeMarker) +:+ "" +:+
            String.concat "" (List.map (fun s => s +:+ nodeMarker) (s' :: rest'))).
    change (String.concat nodeMarker (s :: (s' :: rest') ++ [final]))
      with (s +:+ nodeMarker +:+ String.concat nodeMarker ((s' :: rest') ++ [final])).
    rewrite <- IH. now rewrite !ParserFacts.append_assoc.
Qed.

(** When the expression answers the end of the segment cut in its three
    groups, as an expression anchored at the end and made of three groups
    does, [buildHTML] is the segments joined by the marker: the attribute
    branch writes the same text as the node branch. *)
Theorem buildHTML_joins_with_marker (segments : list string) :
  (forall str m, lastAttributeNameRegex_exec str = Some m ->
     String.substring 0 (match_index m) str
     +:+ group1 m +:+ group2 m +:+ group3 m = str) ->
  segments <> [] ->
  buildHTML segments = String.concat nodeMarker segments.
Proof.
  intros Htiles Hne.
  destruct (List.exists_last Hne) as [front [final ->]].
  unfold buildHTML. rewrite ParserFacts.buildHTML_from_segments.
  assert (Hmap : List.map with_marker front
                 = List.map (fun s => s +:+ nodeMarker) front).
  { apply List.map_ext. intros str. unfold with_marker.
    destruct (lastAttributeNameRegex_exec str) as [m |] eqn:Hm; [| reflexivity].
    rewrite <- !ParserFacts.append_assoc.
    rewrite <- (Htiles str m Hm) at 2. now rewrite <- !ParserFacts.append_assoc. }
  rewrite Hmap. cbn [String.append]. apply concat_with_marker.
Qed.

(** [getTemplate] returns for every component and every page, and leaves
    the document as it was.  When the look-up finds an element it returns
    that element and does nothing else; when it misses, the template it
    returns is a new object, and the same look-up misses again after the
    call. *)
Theorem getTemplate_never_registers (component : MosaicComponent) (w : world) :
  let result := getTemplate component w in
  (exists t, result.1 = Ok t)
  /\ document result.2 = document w
  /\ (forall found,
        getElementById (tid component) (document w) = Some found ->
        result = (Ok found, w))
  /\ (getElementById (tid component) (document w) = None ->
      (forall t, result.1 = Ok t -> ref t = next_ref w)
      /\ next_ref result.2 = S (next_ref w)
      /\ getElementById (tid component) (document result.2) = None).
Proof.
  cbv zeta. unfold getTemplate, bind, get, ret, log_call, modify,
    createElement_template. cbn.
  destruct (getElementById (tid component) (document w)) as [found |] eqn:Hg.
  - split; [now exists found |]. split; [reflexivity |]. split.
    + now intros ? [= <-].
    + discriminate.
  - destruct (view component); cbn;
      (split; [eexists; reflexivity |]); (split; [reflexivity |]);
      (split; [discriminate |]); intros _;
      (split; [now intros t [= <-] |]); (split; [reflexivity | exact Hg]).
Qed.

End WithMarkup.

Lemma buildHTML_joins_with_marker_witness :
  @buildHTML AttributeSample.attribute_markup ["<a class='"; "'>"; "</a>"]
  = String.concat "<!--{{m-0}}-->" ["<a class='"; "'>"; "</a>"].
Proof.
  apply (@buildHTML_joins_with_marker AttributeSample.attribute_markup).
  - exact attribute_exec_tiles.
  - discriminate.
Defined.

Example attribute_exec_example :
  AttributeSample.attribute_exec "<a class='"
  = Some {| match_index := 2; group1 := " "; group2 := "class";
            group3 := "='" |}
  /\ AttributeSample.attribute_exec "<p>" = None.
Proof. split; reflexivity. Qed.

End ParserMore.

(** ** [Mosaic.list] *)

Module IndexFacts.
Import Index.

(** The keys and the items [Mosaic.list] returns are as many as the items
    given and belong together index by index; the keys are without
    repetition exactly when no two of the items given have the same key,
    which [Mosaic.list] does not check. *)
Theorem Mosaic_list_parallel {A K V : Type} (given : list A) (key : A -> K)
    (map : A -> nat -> V) :
  let result := Mosaic_list given key map in
  length (keys result) = length given
  /\ length (items result) = length given
  /\ (forall (i : nat) (itm : A),
        given !! i = Some itm ->
        keys result !! i = Some (key itm)
        /\ items result !! i = Some (map itm i))
  /\ (NoDup (keys result)
      <-> forall (i j : nat) (a b : A),
            given !! i = Some a -> given !! j = Some b ->
            key a = key b -> i = j).
Proof.
  cbv zeta. unfold Mosaic_list. cbn [keys items].
  change (List.map (fun itm => key itm) given) with (key <$> given).
  split; [apply length_fmap |]. split; [apply length_imap |]. split.
  - intros i itm Hi. split.
    + now rewrite list_lookup_fmap, Hi.
    + now rewrite list_lookup_imap, Hi.
  - rewrite NoDup_alt. split.
    + intros Hnd i j a b Hi Hj Hk. apply (Hnd i j (key a)).
      * now rewrite list_lookup_fmap, Hi.
      * now rewrite list_lookup_fmap, Hj, Hk.
    + intros Hsep i j x Hi Hj. rewrite list_lookup_fmap in Hi, Hj.
      destruct (given !! i) as [a |] eqn:Ea; [| discriminate].
      destruct (given !! j) as [b |] eqn:Eb; [| discriminate].
      cbn in Hi, Hj. apply (Hsep i j a b Ea Eb). congruence.
Qed.

End IndexFacts.
